(** * git-commit-message: a shallow embedding of the message-synthesis engine

    The development follows the two script variants of the repository:
    [git-commit-message.js] (categorisation and category-based messages,
    the Llama generator) and [test-example.test.js] (the same script
    extended with [analyzeCodeChanges] and the Ollama generator).

    JavaScript strings are modelled as lists of code units ([list ascii]):
    the units 0 to 255, read as in Latin-1.  White space and case mapping
    are those of JavaScript on these units; the two units whose capital
    lies beyond 255 are named at [upperUnits]. *)

From Stdlib Require Import Ascii String Bool Arith Lia List Permutation.
From Stdlib Require Import DecimalString.
Import ListNotations.

Local Open Scope string_scope.
Local Open Scope list_scope.
Local Open Scope nat_scope.

(** ** JavaScript strings *)

Definition jsstring := list ascii.

Definition str (s : string) : jsstring := list_ascii_of_string s.

Definition ch (s : string) : ascii :=
  match s with
  | String c _ => c
  | EmptyString => Ascii.zero
  end.

Definition LF : ascii := ascii_of_nat 10.
Definition DQUOTE : ascii := ascii_of_nat 34.
Definition SQUOTE : ascii := ascii_of_nat 39.

Fixpoint jseq (a b : jsstring) : bool :=
  match a, b with
  | [], [] => true
  | x :: a', y :: b' => Ascii.eqb x y && jseq a' b'
  | _, _ => false
  end.

Definition inRange (lo hi : nat) (c : ascii) : bool :=
  (lo <=? nat_of_ascii c) && (nat_of_ascii c <=? hi).

Definition isUpperAZ (c : ascii) : bool := inRange 65 90 c.
Definition isLowerAZ (c : ascii) : bool := inRange 97 122 c.
Definition isDigit (c : ascii) : bool := inRange 48 57 c.

(** [\w] of the regular expressions: [[A-Za-z0-9_]]. *)
Definition isWord (c : ascii) : bool :=
  isUpperAZ c || isLowerAZ c || isDigit c || Ascii.eqb c (ch "_").

(** White space as [String.prototype.trim] and [\s] see it: TAB, LF, VT,
    FF, CR, SPACE and the no-break space (unit 160). *)
Definition isSpace (c : ascii) : bool :=
  inRange 9 13 c || Ascii.eqb c (ch " ") || Ascii.eqb c (ascii_of_nat 160).

(** Line terminators, which the regular-expression dot does not match. *)
Definition isLineTerminator (c : ascii) : bool :=
  Ascii.eqb c LF || Ascii.eqb c (ascii_of_nat 13).

(** Lower case of one unit: the letters A to Z and the capital letters of
    the upper half (192 to 222, the multiplication sign 215 apart) move up
    by 32. *)
Definition lowerChar (c : ascii) : ascii :=
  if isUpperAZ c || inRange 192 214 c || inRange 216 222 c
  then ascii_of_nat (nat_of_ascii c + 32) else c.

(** Upper case of one unit; it may be more than one unit long.  The
    letters a to z and the small letters of the upper half (224 to 254,
    the division sign 247 apart) move down by 32, and the sharp s (223)
    becomes [SS].  The micro sign (181) and the y with diaeresis (255) have
    capitals beyond unit 255, which a list of these units cannot hold: the
    model leaves the two as they are. *)
Definition upperUnits (c : ascii) : jsstring :=
  if isLowerAZ c || inRange 224 246 c || inRange 248 254 c
  then [ascii_of_nat (nat_of_ascii c - 32)]
  else if Ascii.eqb c (ascii_of_nat 223) then [ch "S"; ch "S"]
  else [c].

(** The unit a character is compared by under the [i] flag: its upper
    case when that is one unit, except that a unit above 127 is never
    identified with one below 128. *)
Definition canonical (c : ascii) : ascii :=
  match upperUnits c with
  | [u] => if (128 <=? nat_of_ascii c) && (nat_of_ascii u <? 128)
           then c else u
  | _ => c
  end.

(** [String.prototype.toLowerCase] and [toUpperCase]. *)
Definition toLowerCase (s : jsstring) : jsstring := map lowerChar s.
Definition toUpperCase (s : jsstring) : jsstring := flat_map upperUnits s.

(** [String.prototype.startsWith]. *)
Fixpoint startsWith (s p : jsstring) {struct p} : bool :=
  match p, s with
  | [], _ => true
  | x :: p', y :: s' => Ascii.eqb x y && startsWith s' p'
  | _ :: _, [] => false
  end.

(** [String.prototype.includes]: the needle occurs somewhere in [s]. *)
Fixpoint includes (s needle : jsstring) : bool :=
  startsWith s needle ||
  match s with
  | [] => false
  | _ :: s' => includes s' needle
  end.

(** [Array.prototype.includes] on an array of strings. *)
Definition arrIncludes (l : list jsstring) (x : jsstring) : bool :=
  existsb (jseq x) l.

(** [Array.prototype.join]. *)
Fixpoint join (sep : jsstring) (l : list jsstring) : jsstring :=
  match l with
  | [] => []
  | [x] => x
  | x :: rest => x ++ sep ++ join sep rest
  end.

(** A number inside a template literal: its decimal digits. *)
Definition numToString (n : nat) : jsstring :=
  str (NilZero.string_of_uint (Nat.to_uint n)).

Fixpoint dropWhile (p : ascii -> bool) (s : jsstring) : jsstring :=
  match s with
  | [] => []
  | c :: s' => if p c then dropWhile p s' else s
  end.

Fixpoint takeWhile (p : ascii -> bool) (s : jsstring) : jsstring :=
  match s with
  | [] => []
  | c :: s' => if p c then c :: takeWhile p s' else []
  end.

(** [String.prototype.trim]. *)
Definition trim (s : jsstring) : jsstring :=
  rev (dropWhile isSpace (rev (dropWhile isSpace s))).

(** [s.split('\n')[0]]: everything before the first line feed. *)
Definition firstLine (s : jsstring) : jsstring :=
  takeWhile (fun c => negb (Ascii.eqb c LF)) s.

(** [String.prototype.substring(0, n)]. *)
Definition substring0 (n : nat) (s : jsstring) : jsstring := firstn n s.

(** [s.replace(pat, rep)] with a string pattern: the first occurrence only. *)
Fixpoint replaceStr (s pat rep : jsstring) : jsstring :=
  if startsWith s pat then rep ++ skipn (length pat) s
  else match s with
       | [] => []
       | c :: s' => c :: replaceStr s' pat rep
       end.

(** ** Node's [path] module (POSIX flavour)

    [path.basename(p)] is the last component of [p], trailing separators
    ignored.  [path.extname(p)] runs from the last dot of that component to
    its end; it is empty when the component has no dot, when its only dot
    is its first character, and when the component is [..]. *)

Definition isSlash (c : ascii) : bool := Ascii.eqb c (ch "/").
Definition isDot (c : ascii) : bool := Ascii.eqb c (ch ".").

Definition basename (p : jsstring) : jsstring :=
  rev (takeWhile (fun c => negb (isSlash c)) (dropWhile isSlash (rev p))).

Definition extname (p : jsstring) : jsstring :=
  let b := basename p in
  let afterDot := takeWhile (fun c => negb (isDot c)) (rev b) in
  let uptoDot := skipn (length afterDot) (rev b) in
  match uptoDot with
  | [] => []                                  (* no dot at all *)
  | _ :: before =>
      match before with
      | [] => []                              (* the dot opens the component *)
      | _ => if jseq b (str "..") then []
             else ch "." :: rev afterDot
      end
  end.

(** ** File categories ([categorizeFiles])

    The [categories] object: seven arrays, filled in staged-file order. *)

Record categories : Type := mkCategories {
  code : list jsstring;
  config : list jsstring;
  docs : list jsstring;
  tests : list jsstring;
  styles : list jsstring;
  scripts : list jsstring;
  other : list jsstring
}.

Definition emptyCategories : categories := mkCategories [] [] [] [] [] [] [].

Definition codeExts : list jsstring :=
  map str [".js"; ".jsx"; ".ts"; ".tsx"; ".py"; ".java"; ".cpp"; ".c";
           ".cs"; ".php"; ".rb"; ".go"; ".rs"].
Definition configExts : list jsstring :=
  map str [".json"; ".yml"; ".yaml"; ".toml"; ".ini"; ".conf"; ".env";
           ".lock"; ".md"].
Definition docExts : list jsstring :=
  map str [".md"; ".txt"; ".rst"; ".adoc"].
Definition styleExts : list jsstring :=
  map str [".css"; ".scss"; ".sass"; ".less"; ".styl"; ".vue"; ".svelte"].
Definition scriptExts : list jsstring :=
  map str [".sh"; ".bash"; ".zsh"; ".fish"; ".py"; ".pl"].

(** The body of the [files.forEach] callback: one [push] per file, chosen
    by the if / else-if chain. *)
Definition categorizeFile (cats : categories) (file : jsstring) : categories :=
  let ext := toLowerCase (extname file) in
  let basename := toLowerCase (basename file) in
  if arrIncludes codeExts ext then
    mkCategories (code cats ++ [file]) (config cats) (docs cats) (tests cats)
                 (styles cats) (scripts cats) (other cats)
  else if arrIncludes configExts ext
          || includes basename (str "package")
          || includes basename (str "config")
          || includes basename (str ".git") then
    mkCategories (code cats) (config cats ++ [file]) (docs cats) (tests cats)
                 (styles cats) (scripts cats) (other cats)
  else if arrIncludes docExts ext
          || includes basename (str "readme")
          || includes basename (str "doc")
          || includes basename (str "changelog") then
    mkCategories (code cats) (config cats) (docs cats ++ [file]) (tests cats)
                 (styles cats) (scripts cats) (other cats)
  else if includes basename (str "test")
          || includes basename (str "spec")
          || jseq ext (str ".test.js")
          || jseq ext (str ".spec.js") then
    mkCategories (code cats) (config cats) (docs cats) (tests cats ++ [file])
                 (styles cats) (scripts cats) (other cats)
  else if arrIncludes styleExts ext then
    mkCategories (code cats) (config cats) (docs cats) (tests cats)
                 (styles cats ++ [file]) (scripts cats) (other cats)
  else if arrIncludes scriptExts ext then
    mkCategories (code cats) (config cats) (docs cats) (tests cats)
                 (styles cats) (scripts cats ++ [file]) (other cats)
  else
    mkCategories (code cats) (config cats) (docs cats) (tests cats)
                 (styles cats) (scripts cats) (other cats ++ [file]).

Definition categorizeFiles (files : list jsstring) : categories :=
  fold_left categorizeFile files emptyCategories.

(** The seven bucket names, and the bucket a name selects. *)
Inductive Category : Type :=
  Code | Config | Docs | Tests | Styles | Scripts | Other.

Definition allCategories : list Category :=
  [Code; Config; Docs; Tests; Styles; Scripts; Other].

Definition bucket (k : Category) (cats : categories) : list jsstring :=
  match k with
  | Code => code cats
  | Config => config cats
  | Docs => docs cats
  | Tests => tests cats
  | Styles => styles cats
  | Scripts => scripts cats
  | Other => other cats
  end.

Definition Category_eqb (a b : Category) : bool :=
  match a, b with
  | Code, Code | Config, Config | Docs, Docs | Tests, Tests
  | Styles, Styles | Scripts, Scripts | Other, Other => true
  | _, _ => false
  end.

(** The branch of the chain a single file takes (used to state the
    partition; [categorizeFile_classify] ties it to the chain above). *)
Definition classify (file : jsstring) : Category :=
  let ext := toLowerCase (extname file) in
  let basename := toLowerCase (basename file) in
  if arrIncludes codeExts ext then Code
  else if arrIncludes configExts ext
          || includes basename (str "package")
          || includes basename (str "config")
          || includes basename (str ".git") then Config
  else if arrIncludes docExts ext
          || includes basename (str "readme")
          || includes basename (str "doc")
          || includes basename (str "changelog") then Docs
  else if includes basename (str "test")
          || includes basename (str "spec")
          || jseq ext (str ".test.js")
          || jseq ext (str ".spec.js") then Tests
  else if arrIncludes styleExts ext then Styles
  else if arrIncludes scriptExts ext then Scripts
  else Other.

Definition pushTo (k : Category) (file : jsstring) (cats : categories)
  : categories :=
  match k with
  | Code => mkCategories (code cats ++ [file]) (config cats) (docs cats)
              (tests cats) (styles cats) (scripts cats) (other cats)
  | Config => mkCategories (code cats) (config cats ++ [file]) (docs cats)
              (tests cats) (styles cats) (scripts cats) (other cats)
  | Docs => mkCategories (code cats) (config cats) (docs cats ++ [file])
              (tests cats) (styles cats) (scripts cats) (other cats)
  | Tests => mkCategories (code cats) (config cats) (docs cats)
              (tests cats ++ [file]) (styles cats) (scripts cats) (other cats)
  | Styles => mkCategories (code cats) (config cats) (docs cats)
              (tests cats) (styles cats ++ [file]) (scripts cats) (other cats)
  | Scripts => mkCategories (code cats) (config cats) (docs cats)
              (tests cats) (styles cats) (scripts cats ++ [file]) (other cats)
  | Other => mkCategories (code cats) (config cats) (docs cats)
              (tests cats) (styles cats) (scripts cats) (other cats ++ [file])
  end.

(** ** Category-based messages ([generateCommitMessage])

    [addCategoryMessage] is the closure of the source: it pushes one clause
    onto [messages] unless the bucket is empty.  The adjective is used in
    the one-file branch only, as in the source. *)

Definition addCategoryMessage (verbose : bool) (messages : list jsstring)
    (category : list jsstring) (categoryName verb adjective : jsstring)
  : list jsstring :=
  match category with
  | [] => messages
  | _ =>
      let count := length category in
      let fileList :=
        if verbose then str " (" ++ join (str ", ") category ++ str ")"
        else [] in
      let adj :=
        match adjective with
        | [] => []
        | _ => adjective ++ str " "
        end in
      if count =? 1 then
        messages ++ [verb ++ str " " ++ adj ++ categoryName ++ fileList]
      else
        messages ++ [verb ++ str " " ++ numToString count ++ str " "
                       ++ categoryName ++ fileList]
  end.

(** The seven calls, then the generic fallback. *)
Definition categoryMessage (cats : categories) (verbose : bool) : jsstring :=
  let m0 := [] in
  let m1 := addCategoryMessage verbose m0 (code cats)
              (str "code file") (str "Update") (str "source") in
  let m2 := addCategoryMessage verbose m1 (config cats)
              (str "configuration") (str "Update") [] in
  let m3 := addCategoryMessage verbose m2 (docs cats)
              (str "documentation") (str "Update") [] in
  let m4 := addCategoryMessage verbose m3 (tests cats)
              (str "test") (str "Update") [] in
  let m5 := addCategoryMessage verbose m4 (styles cats)
              (str "stylesheet") (str "Update") [] in
  let m6 := addCategoryMessage verbose m5 (scripts cats)
              (str "script") (str "Update") [] in
  let messages := addCategoryMessage verbose m6 (other cats)
              (str "file") (str "Update") [] in
  match messages with
  | [] => str "Update files"
  | _ => join (str ", ") messages
  end.

(** The options object, as far as the engine reads it. *)
Record options : Type := mkOptions {
  verbose : bool;
  detailed : bool
}.

(** ** Regular expressions

    A backtracking matcher with the priorities of the JavaScript engine:
    alternatives are tried left to right, [*] is greedy, an iteration of
    [*] that consumes nothing is rejected, [^] and [$] match at the two
    ends of the input only (no [m] flag is used in the source). *)

Inductive regex : Type :=
  | Eps
  | Chr (p : ascii -> bool)
  | Cat (r1 r2 : regex)
  | Alt (r1 r2 : regex)
  | Star (r : regex)
  | Bol
  | Eol
  | Grp (i : nat) (r : regex).

Record mstate : Type := mkState {
  atStart : bool;
  rest : jsstring;
  caps : list (nat * jsstring)
}.

(** The greedy loop of [r*]: one more iteration of [body] first, the
    continuation otherwise.  An iteration must consume input; [fuel] is
    the length of the remaining input, which bounds the iterations. *)
Fixpoint starLoop {A : Type}
    (body : mstate -> (mstate -> option A) -> option A)
    (k : mstate -> option A) (fuel : nat) (st : mstate) {struct fuel}
  : option A :=
  match fuel with
  | 0 => k st
  | S fuel' =>
      match body st (fun st' =>
              if length (rest st') <? length (rest st)
              then starLoop body k fuel' st' else None) with
      | Some a => Some a
      | None => k st
      end
  end.

Fixpoint run {A : Type} (r : regex) (st : mstate)
    (k : mstate -> option A) {struct r} : option A :=
  match r with
  | Eps => k st
  | Chr p =>
      match rest st with
      | c :: t => if p c then k (mkState false t (caps st)) else None
      | [] => None
      end
  | Cat r1 r2 => run r1 st (fun st' => run r2 st' k)
  | Alt r1 r2 =>
      match run r1 st k with
      | Some a => Some a
      | None => run r2 st k
      end
  | Star r1 =>
      starLoop (fun st' k' => run r1 st' k') k (length (rest st)) st
  | Bol => if atStart st then k st else None
  | Eol =>
      match rest st with
      | [] => k st
      | _ :: _ => None
      end
  | Grp i r1 =>
      run r1 st (fun st' =>
        k (mkState (atStart st') (rest st')
             ((i, firstn (length (rest st) - length (rest st')) (rest st))
                :: caps st')))
  end.

(** The words a pattern can match, anchors and captures left aside: an
    upper bound of what [run] accepts, used to show that a pattern cannot
    match. *)
Inductive Matches : regex -> jsstring -> Prop :=
  | MEps : Matches Eps []
  | MChr p c : p c = true -> Matches (Chr p) [c]
  | MCat r1 r2 w1 w2 :
      Matches r1 w1 -> Matches r2 w2 -> Matches (Cat r1 r2) (w1 ++ w2)
  | MAltL r1 r2 w : Matches r1 w -> Matches (Alt r1 r2) w
  | MAltR r1 r2 w : Matches r2 w -> Matches (Alt r1 r2) w
  | MStar0 r : Matches (Star r) []
  | MStarS r w1 w2 :
      Matches r w1 -> Matches (Star r) w2 -> Matches (Star r) (w1 ++ w2)
  | MBol : Matches Bol []
  | MEol : Matches Eol []
  | MGrp i r w : Matches r w -> Matches (Grp i r) w.

(** The result of one successful match. *)
Record mresult : Type := mkResult {
  before : jsstring;
  matched : jsstring;
  after : jsstring;
  groups : list (nat * jsstring)
}.

(** A match that starts exactly at the head of [s]; [bol] tells whether
    that head is the start of the whole input. *)
Definition execAt (r : regex) (bol : bool) (s : jsstring) : option mresult :=
  match run r (mkState bol s []) (fun st => Some st) with
  | Some st =>
      Some (mkResult [] (firstn (length s - length (rest st)) s)
                     (rest st) (caps st))
  | None => None
  end.

(** The leftmost match ([RegExp.prototype.exec] without the [g] flag). *)
Fixpoint search (r : regex) (bol : bool) (s : jsstring) : option mresult :=
  match execAt r bol s with
  | Some m => Some m
  | None =>
      match s with
      | [] => None
      | c :: t =>
          match search r false t with
          | Some m => Some (mkResult (c :: before m) (matched m)
                                     (after m) (groups m))
          | None => None
          end
      end
  end.

(** [pattern.test(s)]. *)
Definition test (r : regex) (s : jsstring) : bool :=
  match search r true s with
  | Some _ => true
  | None => false
  end.

(** The text of capture group [i] ([m[i]]); [None] when it did not take
    part in the match. *)
Fixpoint group (i : nat) (g : list (nat * jsstring)) : option jsstring :=
  match g with
  | [] => None
  | (j, s) :: g' => if i =? j then Some s else group i g'
  end.

(** [s.match(r)] with the [g] flag: the texts of all matches, left to
    right, none overlapping; after an empty match the scan moves on by one
    code unit.  The empty list stands for the [null] of the source, which
    every caller guards against before iterating. *)
Fixpoint matchAllFrom (fuel : nat) (r : regex) (bol : bool) (s : jsstring)
  : list jsstring :=
  match fuel with
  | 0 => []
  | S fuel' =>
      match execAt r bol s with
      | Some m =>
          match matched m, s with
          | [], _ :: t => [] :: matchAllFrom fuel' r false t
          | [], [] => [[]]
          | _ :: _, _ => matched m :: matchAllFrom fuel' r false (after m)
          end
      | None =>
          match s with
          | [] => []
          | _ :: t => matchAllFrom fuel' r false t
          end
      end
  end.

Definition matchAll (r : regex) (s : jsstring) : list jsstring :=
  matchAllFrom (S (length s)) r true s.

(** [s.replace(r, rep)] without the [g] flag: the leftmost match only. *)
Fixpoint replaceFirstFrom (r : regex) (rep : jsstring) (bol : bool)
    (s : jsstring) : jsstring :=
  match execAt r bol s with
  | Some m => rep ++ after m
  | None =>
      match s with
      | [] => []
      | c :: t => c :: replaceFirstFrom r rep false t
      end
  end.

Definition replaceFirst (r : regex) (rep s : jsstring) : jsstring :=
  replaceFirstFrom r rep true s.

(** [s.replace(r, rep)] with the [g] flag: every match. *)
Fixpoint replaceAllFrom (fuel : nat) (r : regex) (rep : jsstring)
    (bol : bool) (s : jsstring) : jsstring :=
  match fuel with
  | 0 => s
  | S fuel' =>
      match execAt r bol s with
      | Some m =>
          match matched m, s with
          | [], c :: t => rep ++ c :: replaceAllFrom fuel' r rep false t
          | [], [] => rep
          | _ :: _, _ => rep ++ replaceAllFrom fuel' r rep false (after m)
          end
      | None =>
          match s with
          | [] => []
          | c :: t => c :: replaceAllFrom fuel' r rep false t
          end
      end
  end.

Definition replaceAll (r : regex) (rep s : jsstring) : jsstring :=
  replaceAllFrom (S (length s)) r rep true s.

(** *** Building blocks of the patterns *)

Definition chr (c : ascii) : regex := Chr (Ascii.eqb c).

Fixpoint seq (l : list regex) : regex :=
  match l with
  | [] => Eps
  | [r] => r
  | r :: l' => Cat r (seq l')
  end.

Fixpoint alts (l : list regex) : regex :=
  match l with
  | [] => Eps
  | [r] => r
  | r :: l' => Alt r (alts l')
  end.

(** A literal run of characters. *)
Definition lit (s : string) : regex := seq (map chr (str s)).

(** The same under the [i] flag. *)
Definition liti (s : string) : regex :=
  seq (map (fun c => Chr (fun x => Ascii.eqb (canonical x) (canonical c)))
           (str s)).

Definition dot : regex := Chr (fun c => negb (isLineTerminator c)).
Definition plus (r : regex) : regex := Cat r (Star r).
Definition opt (r : regex) : regex := Alt r Eps.
Definition anything : regex := Star dot.   (* dot star *)
Definition sp : regex := Chr isSpace.      (* \s *)
Definition word : regex := Chr isWord.     (* \w *)
Definition digit : regex := Chr isDigit.   (* \d *)
Definition oneOf (s : string) : regex :=
  Chr (fun c => existsb (Ascii.eqb c) (str s)).
Definition noneOf (l : list ascii) : regex :=
  Chr (fun c => negb (existsb (Ascii.eqb c) l)).
(** The class of the two quote characters, double and single. *)
Definition quote : regex :=
  Chr (fun c => Ascii.eqb c DQUOTE || Ascii.eqb c SQUOTE).

(** ** Code analysis ([analyzeCodeChanges], test-example.test.js) *)

Record pattern : Type := mkPattern {
  ptype : jsstring;
  action : jsstring
}.

Module CodeAnalysis.
Record t : Type := mk {
  patterns : list pattern;
  functions : list jsstring;
  imports : list jsstring;
  tests : list jsstring;
  configs : list jsstring;
  types : list jsstring;
  summary : jsstring
}.
End CodeAnalysis.
Import CodeAnalysis (patterns, functions, imports, configs, types, summary).

(** A changed line opens with one of the two diff markers: the class of
    minus and plus. *)
Definition pm : regex := oneOf "-+".

(** functionPattern, four alternatives, each opening with the diff marker
    and dot-star:
      function\s+(\w+)\s*\(
      const\s+(\w+)\s*=\s*(?:\([^)]*\)\s*=>|async\s+\([^)]*\)\s*=>)
      class\s+(\w+)
      def\s+(\w+)\s*\(                                                  *)
Definition functionPattern : regex :=
  alts [
    seq [pm; anything; lit "function"; plus sp; Grp 1 (plus word);
         Star sp; lit "("];
    seq [pm; anything; lit "const"; plus sp; Grp 2 (plus word); Star sp;
         lit "="; Star sp;
         Alt (seq [lit "("; Star (noneOf [ch ")"]); lit ")"; Star sp;
                   lit "=>"])
             (seq [lit "async"; plus sp; lit "("; Star (noneOf [ch ")"]);
                   lit ")"; Star sp; lit "=>"])];
    seq [pm; anything; lit "class"; plus sp; Grp 3 (plus word)];
    seq [pm; anything; lit "def"; plus sp; Grp 4 (plus word); Star sp;
         lit "("]
  ].

(** (?:function|const|class|def)\s+(\w+) *)
Definition funcNamePattern : regex :=
  seq [alts [lit "function"; lit "const"; lit "class"; lit "def"];
       plus sp; Grp 1 (plus word)].

(** importPattern, two alternatives, Q the class of the two quote
    characters and NQ its complement:
      [-+].*(?:import|require|from)\s+Q NQ+ Q
      [-+].*import\s+.*from\s+Q NQ+ Q                                   *)
Definition importPattern : regex :=
  alts [
    seq [pm; anything; alts [lit "import"; lit "require"; lit "from"];
         plus sp; quote; plus (noneOf [SQUOTE; DQUOTE]); quote];
    seq [pm; anything; lit "import"; plus sp; anything; lit "from";
         plus sp; quote; plus (noneOf [SQUOTE; DQUOTE]); quote]
  ].

(** ^\+\s* : the marker that is cut off a recorded line. *)
Definition plusPrefix : regex := seq [Bol; lit "+"; Star sp].

(** \+.*(?:test|it|describe|expect)\s*\( *)
Definition testPattern : regex :=
  seq [lit "+"; anything;
       alts [lit "test"; lit "it"; lit "describe"; lit "expect"];
       Star sp; lit "("].

(** A plus, dot-star, a double-quoted non-empty key, \s*:\s*, then a
    non-empty run of characters other than comma and closing brace. *)
Definition configPattern : regex :=
  seq [lit "+"; anything; chr DQUOTE; plus (noneOf [DQUOTE]); chr DQUOTE;
       Star sp; lit ":"; Star sp; plus (noneOf [ch ","; ch "}"])].

(** \+.*(?:interface|type|enum)\s+\w+ *)
Definition typePattern : regex :=
  seq [lit "+"; anything; alts [lit "interface"; lit "type"; lit "enum"];
       plus sp; plus word].

(** The catalogue of the source, in declaration order.  In each entry the
    diff marker and dot-star belong to the first alternative only. *)
Definition debugAddedPattern : regex :=
  alts [seq [lit "+"; anything; lit "console.log"];
        lit "console.debug"; lit "console.info"].

Definition todoAddedPattern : regex :=
  alts [seq [lit "+"; anything; lit "TODO"]; lit "FIXME"; lit "HACK"].

Definition testsAddedPattern : regex :=
  alts [seq [lit "+"; anything; lit "test"]; lit "spec"; lit "describe";
        lit "it"; lit "expect"].

Definition patternCatalogue : list (regex * pattern) :=
  [ (debugAddedPattern,
     mkPattern (str "debugging") (str "Add debug logging"));
    (todoAddedPattern,
     mkPattern (str "todos") (str "Add TODO comments"));
    (seq [lit "+"; anything; lit "export"; plus sp;
          opt (seq [lit "default"; plus sp]);
          alts [lit "class"; lit "function"; lit "const"; lit "var";
                lit "let"]],
     mkPattern (str "exports") (str "Add exports"));
    (alts [seq [lit "-"; anything; lit "console.log"];
           lit "console.debug"; lit "console.info"],
     mkPattern (str "debugging") (str "Remove debug logging"));
    (alts [seq [lit "+"; anything; lit "eslint"]; lit "prettier";
           lit "stylelint"],
     mkPattern (str "linting") (str "Add linting rules"));
    (testsAddedPattern,
     mkPattern (str "tests") (str "Add test cases"));
    (alts [seq [lit "-"; anything; lit "test"]; lit "spec"; lit "describe";
           lit "it"; lit "expect"],
     mkPattern (str "tests") (str "Remove test cases"));
    (alts [seq [lit "+"; anything; lit "catch"]; lit "try";
           seq [lit "throw"; plus sp; lit "new"; plus sp; lit "Error"]],
     mkPattern (str "error-handling") (str "Add error handling"));
    (alts [seq [lit "+"; anything; lit "async"]; lit "await"; lit "Promise";
           lit ".then("; lit ".catch("],
     mkPattern (str "async") (str "Add async functionality"));
    (alts [seq [lit "+"; anything; lit "fetch"]; lit "axios";
           lit "XMLHttpRequest"; lit "http."],
     mkPattern (str "api") (str "Add API calls"));
    (alts [seq [lit "+"; anything; lit "useState"]; lit "useEffect";
           lit "useContext"; lit "useReducer"],
     mkPattern (str "react-hooks") (str "Add React hooks"));
    (alts [seq [lit "+"; anything; lit "Component"];
           seq [lit "extends"; anything; lit "Component"];
           lit "React.Component"],
     mkPattern (str "react-components") (str "Add React components"));
    (alts [seq [lit "+"; anything; lit "router"]; lit "route"; lit "/api/"],
     mkPattern (str "routing") (str "Add routing"));
    (alts [seq [lit "+"; anything; lit "mongoose"]; lit "sequelize";
           lit "prisma"; lit "sql"],
     mkPattern (str "database") (str "Add database operations"));
    (alts [seq [lit "+"; anything; lit "auth"]; lit "jwt"; lit "bcrypt";
           lit "passport"],
     mkPattern (str "authentication") (str "Add authentication"));
    (alts [seq [lit "+"; anything; lit "validation"]; lit "validate";
           lit "joi"; lit "yup"],
     mkPattern (str "validation") (str "Add validation")) ].

(** [analysis.patterns.find(p => p.type === type)] as a truth value. *)
Definition hasType (ps : list pattern) (ty : jsstring) : bool :=
  existsb (fun p => jseq (ptype p) ty) ps.

(** One round of [patterns.forEach]; [matches] stands for [pattern.test]
    on the diff. *)
Definition pushPattern (matches : regex -> bool) (ps : list pattern)
    (entry : regex * pattern) : list pattern :=
  if matches (fst entry) then
    if hasType ps (ptype (snd entry)) then ps else ps ++ [snd entry]
  else ps.

Definition detectPatternsWith (matches : regex -> bool)
    (catalogue : list (regex * pattern)) (ps : list pattern) : list pattern :=
  fold_left (pushPattern matches) catalogue ps.

Definition detectPatterns (diff : jsstring) : list pattern :=
  detectPatternsWith (fun r => test r diff) patternCatalogue [].

(** The [functionPattern.forEach] callback: the declared name, recorded
    once. *)
Definition pushFunction (fns : list jsstring) (m : jsstring) : list jsstring :=
  match search funcNamePattern true m with
  | Some funcMatch =>
      match group 1 (groups funcMatch) with
      | Some name => if arrIncludes fns name then fns else fns ++ [name]
      | None => fns
      end
  | None => fns
  end.

Definition cutPlus (m : jsstring) : jsstring := replaceFirst plusPrefix [] m.

(** The body of the [files.forEach] callback of [analyzeCodeChanges]: the
    whole diff is scanned once for each evidence kind the file qualifies
    for. *)
Definition analyzeFile (diff : jsstring) (analysis : CodeAnalysis.t)
    (file : jsstring) : CodeAnalysis.t :=
  let ext := toLowerCase (extname file) in
  let basename := toLowerCase (basename file) in
  let functions1 :=
    if arrIncludes (map str [".js"; ".jsx"; ".ts"; ".tsx"; ".py"; ".java";
                             ".cpp"; ".c"]) ext
    then fold_left pushFunction (matchAll functionPattern diff)
                   (functions analysis)
    else functions analysis in
  let imports1 :=
    if arrIncludes (map str [".js"; ".jsx"; ".ts"; ".tsx"; ".py"]) ext
    then fold_left
           (fun acc m => if startsWith m (str "+") then acc ++ [cutPlus m]
                         else acc)
           (matchAll importPattern diff) (imports analysis)
    else imports analysis in
  let tests1 :=
    if includes basename (str "test") || includes basename (str "spec")
    then CodeAnalysis.tests analysis ++ map cutPlus (matchAll testPattern diff)
    else CodeAnalysis.tests analysis in
  let configs1 :=
    if arrIncludes (map str [".json"; ".yml"; ".yaml"; ".toml"; ".env"]) ext
       || includes basename (str "config")
    then configs analysis
           ++ map (fun m => substring0 50 (cutPlus m))
                  (matchAll configPattern diff)
    else configs analysis in
  let types1 :=
    if arrIncludes (map str [".ts"; ".tsx"]) ext
    then types analysis ++ map cutPlus (matchAll typePattern diff)
    else types analysis in
  CodeAnalysis.mk (patterns analysis) functions1 imports1 tests1 configs1
                  types1 (summary analysis).

Definition plural (n : nat) : jsstring := if 1 <? n then str "s" else [].

Definition analysisSummary (a : CodeAnalysis.t) : jsstring :=
  let p0 : list jsstring := [] in
  let p1 := if 0 <? length (functions a)
            then p0 ++ [numToString (length (functions a)) ++ str " function"
                          ++ plural (length (functions a))] else p0 in
  let p2 := if 0 <? length (imports a)
            then p1 ++ [numToString (length (imports a)) ++ str " import"
                          ++ plural (length (imports a))] else p1 in
  let p3 := if 0 <? length (CodeAnalysis.tests a)
            then p2 ++ [numToString (length (CodeAnalysis.tests a))
                          ++ str " test"
                          ++ plural (length (CodeAnalysis.tests a))] else p2 in
  let p4 := if 0 <? length (configs a)
            then p3 ++ [str "configuration changes"] else p3 in
  let parts := if 0 <? length (types a)
            then p4 ++ [numToString (length (types a)) ++ str " type"
                          ++ plural (length (types a))] else p4 in
  match parts with
  | [] => str "code changes"
  | _ => join (str ", ") parts
  end.

Definition emptyAnalysis : CodeAnalysis.t :=
  CodeAnalysis.mk [] [] [] [] [] [] [].

Definition analyzeCodeChanges (files : list jsstring) (diff : jsstring)
  : CodeAnalysis.t :=
  let a := fold_left (analyzeFile diff) files emptyAnalysis in
  let a' := CodeAnalysis.mk
              (detectPatternsWith (fun r => test r diff) patternCatalogue
                                  (patterns a))
              (functions a) (imports a) (CodeAnalysis.tests a) (configs a)
              (types a) (summary a) in
  CodeAnalysis.mk (patterns a') (functions a') (imports a')
                  (CodeAnalysis.tests a') (configs a') (types a')
                  (analysisSummary a').

(** ** Message composition

    [Basic] is [generateCommitMessage] of git-commit-message.js; the
    top-level [generateCommitMessage] is the one of test-example.test.js,
    which consults the code analysis first and falls back to the same
    category clauses. *)

Module Basic.
Definition generateCommitMessage (cats : categories) (opts : options)
  : jsstring :=
  categoryMessage cats (verbose opts).
End Basic.

Definition generateCommitMessage (cats : categories)
    (codeAnalysis : CodeAnalysis.t) (opts : options) : jsstring :=
  match patterns codeAnalysis with
  | primaryPattern :: _ =>
      let nf := length (functions codeAnalysis) in
      let nt := length (CodeAnalysis.tests codeAnalysis) in
      let ny := length (types codeAnalysis) in
      let c0 : list jsstring := [] in
      let c1 := if (0 <? length (code cats)) && (0 <? nf)
                then c0 ++ [numToString nf ++ str " function" ++ plural nf]
                else c0 in
      let c2 := if (0 <? length (tests cats)) && (0 <? nt)
                then c1 ++ [numToString nt ++ str " test" ++ plural nt]
                else c1 in
      let c3 := if 0 <? length (imports codeAnalysis)
                then c2 ++ [str "new imports"] else c2 in
      let categoryParts :=
                if 0 <? ny
                then c3 ++ [numToString ny ++ str " type" ++ plural ny]
                else c3 in
      let action0 := action primaryPattern in
      let action1 :=
        if startsWith action0 (str "Add ") && (0 <? length categoryParts)
        then replaceStr action0 (str "Add ") []
        else action0 in
      if 0 <? length categoryParts
      then action1 ++ str " with " ++ join (str ", ") categoryParts
      else action1
  | [] => categoryMessage cats (verbose opts)
  end.

(** ** The action verb of detailed mode ([getDetailedCommitMessage]) *)

(** (\d+)\s+insertion\(+\),?\s*(\d+)\s+deletion\(-\)? *)
Definition shortstatPattern : regex :=
  seq [Grp 1 (plus digit); plus sp; lit "insertion"; plus (lit "(");
       lit ")"; opt (lit ","); Star sp; Grp 2 (plus digit); plus sp;
       lit "deletion"; lit "("; lit "-"; opt (lit ")")].

(** [parseInt] on a run of decimal digits. *)
Definition parseInt (s : jsstring) : nat :=
  fold_left (fun n c => 10 * n + (nat_of_ascii c - 48))
            (takeWhile isDigit s) 0.

Definition groupInt (i : nat) (m : mresult) : nat :=
  match group i (groups m) with
  | Some s => parseInt s
  | None => 0
  end.

(** The verb chosen from the two counts. *)
Definition verbOf (additions deletions : nat) : jsstring :=
  if (0 <? additions) && (deletions =? 0) then str "Add"
  else if (additions =? 0) && (0 <? deletions) then str "Remove"
  else if deletions * 2 <? additions then str "Enhance"
  else if additions * 2 <? deletions then str "Simplify"
  else str "Update".

(** [shortstat] is what [git diff --cached --shortstat] printed, [None]
    when a git call threw (the [catch] branch). *)
Definition getDetailedCommitMessage (shortstat : option jsstring) : jsstring :=
  match shortstat with
  | None => str "Update"
  | Some out =>
      let summary := trim out in
      let m := search shortstatPattern true summary in
      let additions := match m with Some r => groupInt 1 r | None => 0 end in
      let deletions := match m with Some r => groupInt 2 r | None => 0 end in
      verbOf additions deletions
  end.

(** ** Sanitising the remote response

    The body of the [end] handler once [response.response] is known.  An
    empty string is falsy and takes the no-response branch. *)

(** Either a quote at the start of the input or a quote at its end. *)
Definition surroundingQuotes : regex := Alt (Cat Bol quote) (Cat quote Eol).

(** \.$ *)
Definition trailingPeriod : regex := Cat (lit ".") Eol.

(** \n+ *)
Definition newlines : regex := plus (chr LF).

(** The preambles removed by the Ollama variant, under the [i] flag and
    anchored at the start of the input. *)
Definition aiPrefix : regex :=
  seq [Bol;
       alts [seq [liti "Sure! Here is"; opt (liti " a potential");
                  liti " commit message for the changes you described:"];
             liti "Here's a commit message:";
             liti "Git commit message:"]].

(** \s+-\s+[Ll]og$ *)
Definition logSuffix : regex :=
  seq [plus sp; lit "-"; plus sp; oneOf "Ll"; lit "og"; Eol].

Definition stripQuotes (s : jsstring) : jsstring :=
  replaceAll surroundingQuotes [] s.

Definition stripPeriod (s : jsstring) : jsstring :=
  replaceFirst trailingPeriod [] s.

(** The length gate shared by both generators. *)
Definition acceptCleaned (cleanedMessage : jsstring) : option jsstring :=
  if (0 <? length cleanedMessage) && (length cleanedMessage <? 100)
  then Some cleanedMessage else None.

Module Llama.
Definition cleanedMessage (response : jsstring) : jsstring :=
  let commitMessage := trim response in
  firstLine
    (trim (replaceAll newlines (str " ")
             (stripPeriod (stripQuotes commitMessage)))).

Definition sanitize (response : jsstring) : option jsstring :=
  match response with
  | [] => None
  | _ => acceptCleaned (cleanedMessage response)
  end.
End Llama.

Module Ollama.
Definition cleanedMessage (response : jsstring) : jsstring :=
  let commitMessage := trim response in
  firstLine
    (trim (replaceFirst logSuffix []
             (replaceFirst aiPrefix []
                (replaceAll newlines (str " ")
                   (stripPeriod (stripQuotes commitMessage)))))).

Definition sanitize (response : jsstring) : option jsstring :=
  match response with
  | [] => None
  | _ => acceptCleaned (cleanedMessage response)
  end.
End Ollama.

(** ** The last step of [main]:
    [commitMessage.charAt(0).toUpperCase() + commitMessage.slice(1)] *)

Definition charAt0 (s : jsstring) : jsstring := firstn 1 s.
Definition slice1 (s : jsstring) : jsstring := skipn 1 s.

Definition capitalize (commitMessage : jsstring) : jsstring :=
  toUpperCase (charAt0 commitMessage) ++ slice1 commitMessage.

(** The rule-based branch of [main] followed by the capitalisation;
    [shortstat] is read in detailed mode only. *)
Definition ruleBasedMessage (files : list jsstring) (diff : jsstring)
    (shortstat : option jsstring) (opts : options) : jsstring :=
  let codeAnalysis := analyzeCodeChanges files diff in
  let cats := categorizeFiles files in
  let commitMessage :=
    if detailed opts
    then getDetailedCommitMessage shortstat ++ str ": "
           ++ generateCommitMessage cats codeAnalysis opts
    else generateCommitMessage cats codeAnalysis opts in
  capitalize commitMessage.

(** The first matching catalogue entry of kind [ty], if any. *)
Definition firstOfKind (matches : regex -> bool)
    (catalogue : list (regex * pattern)) (ty : jsstring) : option pattern :=
  option_map snd
    (find (fun e => matches (fst e) && jseq (ptype (snd e)) ty) catalogue).

(** Order-preserving selection: [l1] is [l2] with some entries left out. *)
Inductive subseq {A : Type} : list A -> list A -> Prop :=
  | subseq_nil : subseq [] []
  | subseq_skip x l1 l2 : subseq l1 l2 -> subseq l1 (x :: l2)
  | subseq_keep x l1 l2 : subseq l1 l2 -> subseq (x :: l1) (x :: l2).

(** The inputs of the documented scenarios. *)
Definition scenarioA : list jsstring :=
  map str ["src/app.js"; "src/utils.js"; "styles/main.css"].
Definition scenarioB : list jsstring :=
  map str ["README.md"; "CHANGELOG.md"].

(** A shortstat line as git prints it: a prefix (the files-changed part),
    then [n insertion(s)(+), m deletion(s)(-)], each noun singular or
    plural, then a suffix (the closing line feed). *)
Definition shortstatSummary (prefix n m suffix : jsstring)
    (pluralIns pluralDel : bool) : jsstring :=
  prefix ++ n ++ str " insertion" ++ (if pluralIns then str "s" else [])
         ++ str "(+), " ++ m ++ str " deletion"
         ++ (if pluralDel then str "s" else []) ++ str "(-)" ++ suffix.

Definition isQuoteChar (c : ascii) : bool :=
  Ascii.eqb c DQUOTE || Ascii.eqb c SQUOTE.

(** The sanitising steps as the specification words them: one character
    taken off the front, or off the end, when it is of the given class.
    They are compared with the expression-based steps of the source. *)
Definition dropFirstIf (p : ascii -> bool) (s : jsstring) : jsstring :=
  match s with
  | c :: t => if p c then t else s
  | [] => []
  end.

Fixpoint dropLastIf (p : ascii -> bool) (s : jsstring) : jsstring :=
  match s with
  | [] => []
  | c :: t =>
      match t with
      | [] => if p c then [] else [c]
      | _ :: _ => c :: dropLastIf p t
      end
  end.

(** The stripping of a response in the specification's words: the
    trimmed response without one quote at its front, one quote at its end
    and, after that, one period at its end. *)
Definition stripped (response : jsstring) : jsstring :=
  dropLastIf isDot
    (dropLastIf isQuoteChar (dropFirstIf isQuoteChar (trim response))).

Definition isEmpty (s : jsstring) : bool :=
  match s with
  | [] => true
  | _ :: _ => false
  end.

(** ** Reading git's output ([getStagedFiles], [getGitStatus],
    [hasStagedChanges])

    The text printed by git is the input; [None] stands for a git call
    that threw, which each function catches. *)

(** [s.split('\n')]. *)
Fixpoint splitLines (s : jsstring) : list jsstring :=
  match s with
  | [] => [[]]
  | c :: t =>
      if Ascii.eqb c LF then [] :: splitLines t
      else match splitLines t with
           | l :: ls => (c :: l) :: ls
           | [] => [[c]]
           end
  end.

(** [output.trim().split('\n').filter(line => line.length > 0)]. *)
Definition outputLines (output : jsstring) : list jsstring :=
  filter (fun line => 0 <? length line) (splitLines (trim output)).

Definition getStagedFiles (gitOutput : option jsstring) : list jsstring :=
  match gitOutput with
  | Some output => outputLines output
  | None => []
  end.

Definition getGitStatus (gitOutput : option jsstring) : list jsstring :=
  match gitOutput with
  | Some output => outputLines output
  | None => []
  end.

Definition hasStagedChanges (gitOutput : option jsstring) : bool :=
  match gitOutput with
  | Some output => 0 <? length (trim output)
  | None => false
  end.

(** A file name as git prints it: not empty, on one line, with no white
    space at either end. *)
Definition plainName (n : jsstring) : Prop :=
  n <> [] /\ ~ In LF n /\
  (forall c t, n = c :: t -> isSpace c = false) /\
  (forall t c, n = t ++ [c] -> isSpace c = false).

(** ** Command-line values ([getArgValue]) *)

(** [args.indexOf(flag)]; [None] is the -1 of the source. *)
Fixpoint indexOf (args : list jsstring) (flag : jsstring) : option nat :=
  match args with
  | [] => None
  | a :: rest =>
      if jseq a flag then Some 0
      else match indexOf rest flag with
           | Some i => Some (S i)
           | None => None
           end
  end.

(** [None] is the [null] of the source. *)
Definition getArgValue (args : list jsstring) (flag : jsstring)
  : option jsstring :=
  match indexOf args flag with
  | Some index =>
      if index + 1 <? length args then nth_error args (index + 1) else None
  | None => None
  end.

(** ** The model the Ollama generator asks for
    ([generateCommitMessageWithOllama])

    The names the server lists are an input. *)

(** Truthiness of a value that is a string, [null] or [undefined]. *)
Definition truthy (v : option jsstring) : bool :=
  match v with
  | Some (_ :: _) => true
  | _ => false
  end.

(** [a || b]. *)
Definition jsOr (a b : option jsstring) : option jsstring :=
  if truthy a then a else b.

Definition defaultModels : list jsstring :=
  map str ["llama2:latest"; "gemma3n:latest"; "deepseek-r1:latest";
           "gpt-oss:20b"].

(** The model picked before the request; [None] is the falsy [model] that
    makes the generator give up. *)
Definition selectModel (ollamaModel : option jsstring)
    (availableModelNames : list jsstring) : option jsstring :=
  let model :=
    if truthy ollamaModel then ollamaModel
    else jsOr (find (fun m => arrIncludes availableModelNames m)
                    defaultModels)
              (hd_error availableModelNames) in
  if truthy model then model else None.

(** ** The end of [main] *)


(** The extension tests of [analyzeCodeChanges], one per evidence kind. *)
Definition qualifiesFunctions (file : jsstring) : bool :=
  arrIncludes (map str [".js"; ".jsx"; ".ts"; ".tsx"; ".py"; ".java";
                        ".cpp"; ".c"]) (toLowerCase (extname file)).
Definition qualifiesImports (file : jsstring) : bool :=
  arrIncludes (map str [".js"; ".jsx"; ".ts"; ".tsx"; ".py"])
              (toLowerCase (extname file)).
Definition qualifiesTests (file : jsstring) : bool :=
  includes (toLowerCase (basename file)) (str "test")
  || includes (toLowerCase (basename file)) (str "spec").
Definition qualifiesConfigs (file : jsstring) : bool :=
  arrIncludes (map str [".json"; ".yml"; ".yaml"; ".toml"; ".env"])
              (toLowerCase (extname file))
  || includes (toLowerCase (basename file)) (str "config").
Definition qualifiesTypes (file : jsstring) : bool :=
  arrIncludes (map str [".ts"; ".tsx"]) (toLowerCase (extname file)).

(** The kinds of the catalogue, each once. *)
Definition catalogueKinds : list jsstring :=
  map str ["debugging"; "todos"; "exports"; "linting"; "tests";
           "error-handling"; "async"; "api"; "react-hooks";
           "react-components"; "routing"; "database"; "authentication";
           "validation"].

(* ================================================================== *)
(** * Properties *)

Example extname_html : extname (str "index.html") = str ".html".
Proof. reflexivity. Qed.
Example extname_coffee_md : extname (str "index.coffee.md") = str ".md".
Proof. reflexivity. Qed.
Example extname_trailing_dot : extname (str "index.") = str ".".
Proof. reflexivity. Qed.
Example extname_none : extname (str "index") = [].
Proof. reflexivity. Qed.
Example extname_hidden : extname (str ".index") = [].
Proof. reflexivity. Qed.
Example extname_hidden_md : extname (str ".index.md") = str ".md".
Proof. reflexivity. Qed.
Example extname_dotdot : extname (str "a/..") = [].
Proof. reflexivity. Qed.
Example basename_dirs : basename (str "src/lib/app.js/") = str "app.js".
Proof. reflexivity. Qed.

(** ** String equality *)

Lemma jseq_eq (a b : jsstring) : jseq a b = true <-> a = b.
Proof.
  revert b; induction a as [|x a IH]; intros [|y b]; simpl;
    try (split; [discriminate | congruence]).
  - split; reflexivity.
  - rewrite andb_true_iff, Ascii.eqb_eq, IH. split.
    + intros [-> ->]; reflexivity.
    + intros H; injection H; auto.
Qed.

Lemma jseq_refl (a : jsstring) : jseq a a = true.
Proof. apply jseq_eq; reflexivity. Qed.

Lemma jseq_neq (a b : jsstring) : jseq a b = false <-> a <> b.
Proof.
  rewrite <- jseq_eq. destruct (jseq a b); split; congruence.
Qed.

(** ** [categorizeFiles] partitions its input *)

Lemma categorizeFile_classify (cats : categories) (file : jsstring) :
  categorizeFile cats file = pushTo (classify file) file cats.
Proof.
  unfold categorizeFile, classify.
  repeat match goal with
         | |- context [if ?b then _ else _] => destruct b
         end; reflexivity.
Qed.

Lemma bucket_pushTo (k k' : Category) (file : jsstring) (cats : categories) :
  bucket k (pushTo k' file cats) =
  if Category_eqb k k' then bucket k cats ++ [file] else bucket k cats.
Proof. destruct k, k'; reflexivity. Qed.

Lemma Category_eqb_eq (a b : Category) : Category_eqb a b = true <-> a = b.
Proof. destruct a, b; simpl; split; congruence. Qed.

Lemma bucket_fold (k : Category) (files : list jsstring) (cats : categories) :
  bucket k (fold_left categorizeFile files cats) =
  bucket k cats ++ filter (fun f => Category_eqb k (classify f)) files.
Proof.
  revert cats; induction files as [|f files IH]; intros cats; simpl.
  - now rewrite app_nil_r.
  - rewrite IH, categorizeFile_classify, bucket_pushTo.
    destruct (Category_eqb k (classify f)).
    + now rewrite <- app_assoc.
    + reflexivity.
Qed.

Lemma bucket_categorizeFiles (k : Category) (files : list jsstring) :
  bucket k (categorizeFiles files) =
  filter (fun f => Category_eqb k (classify f)) files.
Proof. unfold categorizeFiles. rewrite bucket_fold. now destruct k. Qed.

Lemma filters_permutation (files : list jsstring) :
  Permutation
    (concat (map (fun k => filter (fun f => Category_eqb k (classify f)) files)
                 allCategories))
    files.
Proof.
  induction files as [|f files IH]; [reflexivity|].
  simpl in *. rewrite !app_nil_r in *.
  destruct (classify f); simpl;
    first [ apply perm_skip, IH
          | rewrite ?app_assoc; symmetry; apply Permutation_cons_app;
            rewrite <- ?app_assoc; symmetry; exact IH ].
Qed.

(** C1.  [categorizeFiles] splits any staged-file list (the non-empty ones
    in particular) into the seven buckets: each bucket holds exactly the
    files whose branch of the chain selects it, in input order; a file of
    the input is in one bucket and in no other; and the seven buckets put
    end to end are a rearrangement of the input. *)
Theorem categorizeFiles_partition (files : list jsstring) :
  let cats := categorizeFiles files in
  (forall k, bucket k cats =
             filter (fun f => Category_eqb k (classify f)) files) /\
  (forall f, In f files -> exists! k, In f (bucket k cats)) /\
  Permutation (code cats ++ config cats ++ docs cats ++ tests cats
                 ++ styles cats ++ scripts cats ++ other cats) files /\
  length (code cats) + length (config cats) + length (docs cats)
    + length (tests cats) + length (styles cats) + length (scripts cats)
    + length (other cats) = length files.
Proof.
  intros cats.
  assert (B : forall k, bucket k cats =
                filter (fun f => Category_eqb k (classify f)) files)
    by (intro k; apply bucket_categorizeFiles).
  assert (P : Permutation (code cats ++ config cats ++ docs cats
                 ++ tests cats ++ styles cats ++ scripts cats ++ other cats)
                files).
  { pose proof (filters_permutation files) as H.
    unfold allCategories in H. cbn [map concat] in H.
    rewrite app_nil_r in H.
    rewrite <- (B Code), <- (B Config), <- (B Docs), <- (B Tests),
            <- (B Styles), <- (B Scripts), <- (B Other) in H.
    exact H. }
  repeat split.
  - exact B.
  - intros f Hf. exists (classify f). split.
    + rewrite B. apply filter_In. split; [exact Hf|].
      apply Category_eqb_eq; reflexivity.
    + intros k Hk. rewrite B in Hk. apply filter_In in Hk.
      destruct Hk as [_ Hk]. apply Category_eqb_eq in Hk. congruence.
  - exact P.
  - apply Permutation_length in P. rewrite !length_app in P. lia.
Qed.

(** ** The documented scenarios, evaluated *)

(** C5 (amended).  Scenario A: the three files fall into two code files
    and one stylesheet, and without pattern matches and without verbose
    the message is two clauses joined by a comma and a space.  The first
    is [Update 2 code file], with or without [source] before the label
    (which of the two is left open here); the second is exactly
    [Update stylesheet]: the verb is repeated and a bucket of one file
    shows no count. *)
Theorem scenarioA_observed (ca : CodeAnalysis.t) (d : bool) :
  patterns ca = [] ->
  let cats := categorizeFiles scenarioA in
  code cats = map str ["src/app.js"; "src/utils.js"] /\
  styles cats = map str ["styles/main.css"] /\
  exists adj : jsstring,
    In adj [[]; str "source "] /\
    generateCommitMessage cats ca (mkOptions false d)
      = join (str ", ") [str "Update 2 " ++ adj ++ str "code file";
                         str "Update stylesheet"] /\
    Basic.generateCommitMessage cats (mkOptions false d)
      = join (str ", ") [str "Update 2 " ++ adj ++ str "code file";
                         str "Update stylesheet"].
Proof.
  intros H cats. unfold generateCommitMessage. rewrite H.
  split; [reflexivity|]. split; [reflexivity|].
  exists []. split; [now left|]. split; vm_compute; reflexivity.
Qed.

Lemma scenarioA_observed_witness :
  exists adj : jsstring,
    In adj [[]; str "source "] /\
    generateCommitMessage (categorizeFiles scenarioA) emptyAnalysis
      (mkOptions false false)
    = join (str ", ") [str "Update 2 " ++ adj ++ str "code file";
                       str "Update stylesheet"].
Proof.
  destruct (scenarioA_observed emptyAnalysis false eq_refl)
    as (_ & _ & adj & I & E & _).
  exists adj. split; [exact I | exact E].
Defined.

(** C5 (as stated).  Scenario A as documented does not hold: on an empty
    diff (no pattern matches) and with verbose off, the message is not
    [Update 2 source code file, 1 stylesheet]. *)
Lemma scenarioA_documented_message_refuted :
  ~ (let cats := categorizeFiles scenarioA in
     length (code cats) = 2 /\ length (styles cats) = 1 /\
     generateCommitMessage cats (analyzeCodeChanges scenarioA [])
       (mkOptions false false)
     = str "Update 2 source code file, 1 stylesheet").
Proof.
  intros [_ [_ H]]. vm_compute in H. discriminate H.
Qed.

(** C2.  Scenario B on the code: [.md] is listed among the configuration
    extensions, which are consulted before the documentation ones, so both
    files land in [config] and none in [docs]; with verbose on the message
    is [Update 2 configuration (README.md, CHANGELOG.md)], not the
    documented [Update documentation (README.md, CHANGELOG.md)]. *)
Theorem scenarioB_observed (ca : CodeAnalysis.t) (d : bool) :
  patterns ca = [] ->
  let cats := categorizeFiles scenarioB in
  config cats = scenarioB /\
  docs cats = [] /\
  generateCommitMessage cats ca (mkOptions true d)
    = str "Update 2 configuration (README.md, CHANGELOG.md)" /\
  Basic.generateCommitMessage cats (mkOptions true d)
    = str "Update 2 configuration (README.md, CHANGELOG.md)" /\
  generateCommitMessage cats ca (mkOptions true d)
    <> str "Update documentation (README.md, CHANGELOG.md)".
Proof.
  intros H cats. unfold generateCommitMessage. rewrite H.
  repeat split; try (vm_compute; reflexivity).
  vm_compute. discriminate.
Qed.

Lemma scenarioB_observed_witness :
  generateCommitMessage (categorizeFiles scenarioB) emptyAnalysis
    (mkOptions true false)
  = str "Update 2 configuration (README.md, CHANGELOG.md)".
Proof.
  apply (scenarioB_observed emptyAnalysis false). reflexivity.
Defined.

(** C6.  With no staged file and no pattern match the message is
    [Update files], whatever the options; this holds for both variants of
    [generateCommitMessage]. *)
Theorem empty_input_message (ca : CodeAnalysis.t) (opts : options) :
  patterns ca = [] ->
  generateCommitMessage (categorizeFiles []) ca opts = str "Update files" /\
  Basic.generateCommitMessage (categorizeFiles []) opts = str "Update files".
Proof.
  intros H. unfold generateCommitMessage. rewrite H. split; reflexivity.
Qed.

Lemma empty_input_message_witness :
  generateCommitMessage (categorizeFiles []) (analyzeCodeChanges [] [])
    (mkOptions true false) = str "Update files".
Proof.
  apply (empty_input_message (analyzeCodeChanges [] []) (mkOptions true false)).
  vm_compute. reflexivity.
Defined.

(** ** Capitalisation *)

Lemma capitalize_cons (c : ascii) (s : jsstring) :
  capitalize (c :: s) = upperUnits c ++ s.
Proof.
  unfold capitalize, toUpperCase, charAt0, slice1.
  cbn [firstn skipn flat_map]. now rewrite app_nil_r.
Qed.

(** The upper case of a unit opens with a unit that is its own upper
    case. *)
Lemma upperUnits_head (c : ascii) :
  exists u rest, upperUnits c = u :: rest /\ upperUnits u = [u].
Proof.
  destruct c as [[] [] [] [] [] [] [] []]; eexists; eexists;
    (split; [reflexivity | reflexivity]).
Qed.

Lemma upperUnits_upper (c : ascii) : isUpperAZ c = true -> upperUnits c = [c].
Proof.
  destruct c as [[] [] [] [] [] [] [] []]; intros H;
    first [reflexivity | discriminate H].
Qed.

(** C8.  The capitalisation step of [main] turns [update file] into
    [Update file], leaves a message that opens with an upper-case letter
    as it is, and applying it twice gives what applying it once gives. *)
Theorem capitalize_idempotent :
  capitalize (str "update file") = str "Update file" /\
  (forall c s, isUpperAZ c = true -> capitalize (c :: s) = c :: s) /\
  (forall s, capitalize (capitalize s) = capitalize s).
Proof.
  split; [reflexivity|]. split.
  - intros c s H. now rewrite capitalize_cons, upperUnits_upper.
  - intros [|c s]; [reflexivity|].
    rewrite capitalize_cons.
    destruct (upperUnits_head c) as (u & rest & -> & Hu).
    cbn [app]. now rewrite capitalize_cons, Hu.
Qed.

Lemma capitalize_idempotent_witness :
  capitalize (str "Update file") = str "Update file".
Proof.
  apply (proj1 (proj2 capitalize_idempotent) (ch "U") (str "pdate file")).
  reflexivity.
Defined.

(** ** The pattern list *)

Lemma analyzeFile_patterns (diff : jsstring) (a : CodeAnalysis.t)
    (file : jsstring) :
  patterns (analyzeFile diff a file) = patterns a.
Proof. reflexivity. Qed.

Lemma fold_analyzeFile_patterns (diff : jsstring) (files : list jsstring)
    (a : CodeAnalysis.t) :
  patterns (fold_left (analyzeFile diff) files a) = patterns a.
Proof.
  revert a; induction files as [|f files IH]; intros a; simpl.
  - reflexivity.
  - now rewrite IH, analyzeFile_patterns.
Qed.

Lemma patterns_analyzeCodeChanges (files : list jsstring) (diff : jsstring) :
  patterns (analyzeCodeChanges files diff) = detectPatterns diff.
Proof.
  unfold analyzeCodeChanges, detectPatterns. simpl.
  now rewrite fold_analyzeFile_patterns.
Qed.

Section Detect.
Variable matches : regex -> bool.

Lemma hasType_false (ps : list pattern) (ty : jsstring) :
  hasType ps ty = false -> ~ In ty (map ptype ps).
Proof.
  unfold hasType. induction ps as [|p ps IH]; simpl; [tauto|].
  intros H. apply orb_false_iff in H. destruct H as [H1 H2].
  intros [E|E]; [|now apply IH].
  apply jseq_neq in H1. congruence.
Qed.

Lemma hasType_true (ps : list pattern) (p : pattern) :
  In p ps -> hasType ps (ptype p) = true.
Proof.
  unfold hasType. intros H. apply existsb_exists. exists p.
  split; [exact H | apply jseq_refl].
Qed.

Lemma hasType_app (ps qs : list pattern) (ty : jsstring) :
  hasType (ps ++ qs) ty = hasType ps ty || hasType qs ty.
Proof. unfold hasType. apply existsb_app. Qed.

Lemma detect_NoDup (catalogue : list (regex * pattern)) :
  forall ps, NoDup (map ptype ps) ->
             NoDup (map ptype (detectPatternsWith matches catalogue ps)).
Proof.
  induction catalogue as [|e catalogue IH]; intros ps H; simpl; [exact H|].
  apply IH. unfold pushPattern.
  destruct (matches (fst e)); [|exact H].
  destruct (hasType ps (ptype (snd e))) eqn:T; [exact H|].
  rewrite map_app; simpl.
  apply NoDup_app_remove_l with (l := []).
  apply Permutation_NoDup with (l := ptype (snd e) :: map ptype ps).
  - simpl. apply Permutation_cons_append.
  - constructor; [now apply hasType_false | exact H].
Qed.

Lemma detect_order (catalogue : list (regex * pattern)) :
  forall ps, exists extra,
    detectPatternsWith matches catalogue ps = ps ++ extra /\
    subseq extra (map snd catalogue).
Proof.
  induction catalogue as [|e catalogue IH]; intros ps; simpl.
  - exists []. split; [now rewrite app_nil_r | constructor].
  - destruct (IH (pushPattern matches ps e)) as [extra [E S]].
    unfold pushPattern in *.
    destruct (matches (fst e));
      [destruct (hasType ps (ptype (snd e)))|].
    + exists extra. split; [exact E | now constructor].
    + exists (snd e :: extra). split.
      * now rewrite E, <- app_assoc.
      * now constructor.
    + exists extra. split; [exact E | now constructor].
Qed.

Lemma detect_first_wins (catalogue : list (regex * pattern)) :
  forall ps p,
    In p (detectPatternsWith matches catalogue ps) <->
    In p ps \/
    (hasType ps (ptype p) = false /\
     firstOfKind matches catalogue (ptype p) = Some p).
Proof.
  unfold firstOfKind.
  induction catalogue as [|e catalogue IH]; intros ps p; simpl.
  - split; [tauto | intros [H|[_ H]]; [exact H | discriminate]].
  - rewrite IH. unfold pushPattern.
    destruct (matches (fst e)) eqn:M; simpl; [|tauto].
    destruct (jseq (ptype (snd e)) (ptype p)) eqn:J.
    + apply jseq_eq in J.
      destruct (hasType ps (ptype (snd e))) eqn:T; simpl.
      * rewrite <- J, T. split; intros [H|[H _]]; auto; discriminate.
      * rewrite in_app_iff, hasType_app, <- J, T. simpl.
        rewrite jseq_refl. simpl. split.
        -- intros [[H|[H|[]]]|[H _]]; auto; try discriminate.
           right. split; [reflexivity | now rewrite H].
        -- intros [H|[_ H]]; auto. injection H as H. auto.
    + destruct (hasType ps (ptype (snd e))) eqn:T; simpl; [tauto|].
      rewrite in_app_iff, hasType_app. simpl. rewrite J, orb_false_r.
      split; [|tauto].
      intros [[H|[H|[]]]|H]; auto.
      subst p. rewrite jseq_refl in J. discriminate.
Qed.

Lemma detect_head (r : regex) (p : pattern)
    (catalogue : list (regex * pattern)) :
  matches r = true ->
  exists extra,
    detectPatternsWith matches ((r, p) :: catalogue) [] = p :: extra.
Proof.
  intros M. simpl. unfold pushPattern; simpl. rewrite M.
  destruct (detect_order catalogue [p]) as [extra [E _]].
  exists extra. exact E.
Qed.

Lemma detect_head2 (r1 r2 : regex) (p1 p2 : pattern)
    (catalogue : list (regex * pattern)) :
  matches r1 = true -> matches r2 = true ->
  jseq (ptype p1) (ptype p2) = false ->
  exists extra,
    detectPatternsWith matches ((r1, p1) :: (r2, p2) :: catalogue) []
    = p1 :: p2 :: extra.
Proof.
  intros M1 M2 J. simpl. unfold pushPattern; simpl. rewrite M1, M2.
  unfold hasType; simpl. rewrite J. simpl.
  destruct (detect_order catalogue [p1; p2]) as [extra [E _]].
  exists extra. exact E.
Qed.
End Detect.

(** C4.  Whatever the diff, the pattern list of [analyzeCodeChanges] has
    no two entries of one kind, lists its entries in catalogue order, and
    holds for each kind exactly the first catalogue entry of that kind
    whose expression matches.  When both the debug-logging-added and the
    TODO-added expressions match, the list opens with the debug-logging
    entry followed by the TODO one, wherever the two occur in the text. *)
Theorem patterns_catalogue_order (files : list jsstring) (diff : jsstring) :
  let ps := patterns (analyzeCodeChanges files diff) in
  NoDup (map ptype ps) /\
  subseq ps (map snd patternCatalogue) /\
  (forall p, In p ps <->
             firstOfKind (fun r => test r diff) patternCatalogue (ptype p)
             = Some p) /\
  (test debugAddedPattern diff = true ->
   test todoAddedPattern diff = true ->
   exists others,
     ps = mkPattern (str "debugging") (str "Add debug logging")
          :: mkPattern (str "todos") (str "Add TODO comments") :: others).
Proof.
  intros ps. unfold ps. rewrite patterns_analyzeCodeChanges.
  unfold detectPatterns. repeat split.
  - apply detect_NoDup. constructor.
  - destruct (detect_order (fun r => test r diff) patternCatalogue [])
      as [extra [E S]].
    rewrite E. exact S.
  - intros H. apply detect_first_wins in H.
    destruct H as [[]|[_ H]]. exact H.
  - intros H. apply detect_first_wins. right. split; [reflexivity | exact H].
  - intros D T.
    apply (detect_head2 (fun r => test r diff)); [exact D | exact T |].
    reflexivity.
Qed.

(** The added TODO line comes first in the text, the added logging call
    second: the logging entry still leads. *)
Lemma patterns_catalogue_order_witness :
  exists others,
    patterns (analyzeCodeChanges [str "src/app.js"]
                (str "+// TODO later" ++ LF :: str "+console.log(1);"))
    = mkPattern (str "debugging") (str "Add debug logging")
      :: mkPattern (str "todos") (str "Add TODO comments") :: others.
Proof.
  apply (proj2 (proj2 (proj2
           (patterns_catalogue_order [str "src/app.js"]
              (str "+// TODO later" ++ LF :: str "+console.log(1);")))));
    vm_compute; reflexivity.
Defined.

Example patterns_logging_first_in_text :
  map action
    (patterns (analyzeCodeChanges [str "src/app.js"]
                 (str "+console.log(1);" ++ LF :: str "+// TODO later")))
  = map str ["Add debug logging"; "Add TODO comments"].
Proof. vm_compute. reflexivity. Qed.

Example patterns_todo_first_in_text :
  map action
    (patterns (analyzeCodeChanges [str "src/app.js"]
                 (str "+// TODO later" ++ LF :: str "+console.log(1);")))
  = map str ["Add debug logging"; "Add TODO comments"].
Proof. vm_compute. reflexivity. Qed.

(** C10.  The text [with] has no added line, yet it contains [it], one of
    the unanchored alternatives of the tests expression: the analysis
    reports the tests pattern with action [Add test cases], although the
    anchored first alternative does not match. *)
Theorem tests_pattern_on_plain_word (files : list jsstring) :
  let diff := str "with" in
  ~ In (ch "+") diff /\
  includes diff (str "it") = true /\
  test (seq [lit "+"; anything; lit "test"]) diff = false /\
  test (lit "it") diff = true /\
  test testsAddedPattern diff = true /\
  patterns (analyzeCodeChanges files diff)
    = [mkPattern (str "tests") (str "Add test cases")].
Proof.
  intros diff. rewrite patterns_analyzeCodeChanges.
  repeat split; try (vm_compute; reflexivity).
  vm_compute. intros H.
  repeat (destruct H as [H|H]; [discriminate H|]). exact H.
Qed.

(** ** Evidence lists *)

Lemma arrIncludes_false (l : list jsstring) (x : jsstring) :
  arrIncludes l x = false -> ~ In x l.
Proof.
  unfold arrIncludes. induction l as [|y l IH]; simpl; [tauto|].
  intros H. apply orb_false_iff in H. destruct H as [H1 H2].
  intros [E|E]; [|now apply IH].
  apply jseq_neq in H1. congruence.
Qed.

Lemma pushFunction_NoDup (fns : list jsstring) (m : jsstring) :
  NoDup fns -> NoDup (pushFunction fns m).
Proof.
  intros H. unfold pushFunction.
  destruct (search funcNamePattern true m) as [r|]; [|exact H].
  destruct (group 1 (groups r)) as [name|]; [|exact H].
  destruct (arrIncludes fns name) eqn:I; [exact H|].
  apply NoDup_app_remove_l with (l := []).
  apply Permutation_NoDup with (l := name :: fns).
  - simpl. apply Permutation_cons_append.
  - constructor; [now apply arrIncludes_false | exact H].
Qed.

Lemma fold_pushFunction_NoDup (ms : list jsstring) :
  forall fns, NoDup fns -> NoDup (fold_left pushFunction ms fns).
Proof.
  induction ms as [|m ms IH]; intros fns H; simpl; [exact H|].
  apply IH. now apply pushFunction_NoDup.
Qed.

(** The function names are recorded once each: the guarded [push]. *)
Lemma functions_NoDup (files : list jsstring) (diff : jsstring) :
  NoDup (functions (analyzeCodeChanges files diff)).
Proof.
  unfold analyzeCodeChanges. simpl.
  assert (G : forall a, NoDup (functions a) ->
                NoDup (functions (fold_left (analyzeFile diff) files a))).
  { induction files as [|f files IH]; intros a H; simpl; [exact H|].
    apply IH. unfold analyzeFile; simpl.
    match goal with
    | |- NoDup (if ?b then _ else _) => destruct b
    end; [|exact H].
    now apply fold_pushFunction_NoDup. }
  apply G. constructor.
Qed.

(** C3.  Two staged TypeScript files and a diff that adds one interface:
    the whole diff is scanned once per qualifying file and the type lines
    are pushed unguarded, so the declaration is recorded twice. *)
Theorem types_recorded_twice :
  let a := analyzeCodeChanges (map str ["a.ts"; "b.ts"])
                              (str "+interface Foo") in
  types a = map str ["interface Foo"; "interface Foo"] /\
  ~ NoDup (types a) /\
  summary a = str "2 types".
Proof.
  repeat split; try (vm_compute; reflexivity).
  vm_compute. intros H. inversion H as [|x l N _]; subst.
  apply N. left. reflexivity.
Qed.

(** The same happens within one file when a line occurs twice in the
    diff: imports are pushed unguarded as well. *)
Example imports_recorded_twice :
  imports (analyzeCodeChanges [str "a.js"]
             (str "+import x from 'y'" ++ LF :: str "+import x from 'y'"))
  = map str ["import x from 'y'"; "import x from 'y'"].
Proof. vm_compute. reflexivity. Qed.

(** ** What the matcher accepts lies in the language of the pattern *)

Lemma starLoop_sound {A : Type} (r : regex)
    (body : mstate -> (mstate -> option A) -> option A)
    (k : mstate -> option A) :
  (forall st k' a, body st k' = Some a ->
     exists w st', rest st = w ++ rest st' /\ Matches r w /\ k' st' = Some a) ->
  forall fuel st a, starLoop body k fuel st = Some a ->
    exists w st',
      rest st = w ++ rest st' /\ Matches (Star r) w /\ k st' = Some a.
Proof.
  intros B. induction fuel as [|fuel IH]; intros st a H; simpl in H.
  - exists [], st. repeat split; [constructor | exact H].
  - match type of H with
    | match ?x with _ => _ end = _ => destruct x as [a0|] eqn:E
    end.
    + injection H as ->.
      apply B in E. destruct E as [w1 [st1 [R1 [M1 K1]]]].
      destruct (length (rest st1) <? length (rest st)); [|discriminate].
      apply IH in K1. destruct K1 as [w2 [st2 [R2 [M2 K2]]]].
      exists (w1 ++ w2), st2. repeat split.
      * now rewrite R1, R2, app_assoc.
      * now constructor.
      * exact K2.
    + exists [], st. repeat split; [constructor | exact H].
Qed.

Lemma run_sound (r : regex) :
  forall (A : Type) (st : mstate) (k : mstate -> option A) (a : A),
    run r st k = Some a ->
    exists w st', rest st = w ++ rest st' /\ Matches r w /\ k st' = Some a.
Proof.
  induction r as [|p|r1 IH1 r2 IH2|r1 IH1 r2 IH2|r IH| | |i r IH];
    intros A st k a H; simpl in H.
  - exists [], st. repeat split; [constructor | exact H].
  - destruct (rest st) as [|c t] eqn:R; [discriminate|].
    destruct (p c) eqn:P; [|discriminate].
    exists [c], (mkState false t (caps st)). repeat split.
    + now constructor.
    + exact H.
  - apply IH1 in H. destruct H as [w1 [st1 [R1 [M1 H]]]].
    apply IH2 in H. destruct H as [w2 [st2 [R2 [M2 H]]]].
    exists (w1 ++ w2), st2. repeat split.
    + now rewrite R1, R2, app_assoc.
    + now constructor.
    + exact H.
  - destruct (run r1 st k) as [a1|] eqn:E.
    + injection H as ->. apply IH1 in E.
      destruct E as [w [st' [R [M K]]]].
      exists w, st'. repeat split; [exact R | now apply MAltL | exact K].
    + apply IH2 in H. destruct H as [w [st' [R [M K]]]].
      exists w, st'. repeat split; [exact R | now apply MAltR | exact K].
  - eapply starLoop_sound; [|exact H].
    intros st0 k' a0 H0. now apply IH in H0.
  - destruct (atStart st); [|discriminate].
    exists [], st. repeat split; [constructor | exact H].
  - destruct (rest st) eqn:R; [|discriminate].
    exists [], st. repeat split; [now rewrite R | constructor | exact H].
  - apply IH in H. destruct H as [w [st' [R [M K]]]].
    eexists w, _. repeat split; [|now constructor | exact K]. exact R.
Qed.

Lemma execAt_sound (r : regex) (bol : bool) (s : jsstring) (m : mresult) :
  execAt r bol s = Some m ->
  exists w, s = w ++ after m /\ Matches r w /\ before m = [].
Proof.
  unfold execAt.
  destruct (run r (mkState bol s []) (fun st => Some st)) as [st|] eqn:E;
    [|discriminate].
  intros H. injection H as <-. simpl.
  apply run_sound in E. destruct E as [w [st' [R [M K]]]].
  injection K as ->. exists w. simpl in R. auto.
Qed.

Lemma search_sound (r : regex) (s : jsstring) :
  forall bol m, search r bol s = Some m ->
    exists w, s = before m ++ w ++ after m /\ Matches r w.
Proof.
  induction s as [|c s IH]; intros bol m H; simpl in H.
  - destruct (execAt r bol []) as [m0|] eqn:E; [|discriminate].
    injection H as ->. apply execAt_sound in E.
    destruct E as [w [S [M B]]]. exists w. rewrite B. auto.
  - destruct (execAt r bol (c :: s)) as [m0|] eqn:E.
    + injection H as ->. apply execAt_sound in E.
      destruct E as [w [S [M B]]]. exists w. rewrite B. auto.
    + destruct (search r false s) as [m1|] eqn:E1; [|discriminate].
      injection H as <-. simpl. apply IH in E1.
      destruct E1 as [w [S M]]. exists w. split; [|exact M].
      now rewrite S at 1.
Qed.

(** *** The greedy loop is not cut short by its fuel *)

Lemma starLoop_ext {A : Type}
    (body : mstate -> (mstate -> option A) -> option A) :
  (forall st k1 k2,
      (forall st', length (rest st') <= length (rest st) -> k1 st' = k2 st') ->
      body st k1 = body st k2) ->
  forall fuel st k1 k2,
    (forall st', length (rest st') <= length (rest st) -> k1 st' = k2 st') ->
    starLoop body k1 fuel st = starLoop body k2 fuel st.
Proof.
  intros B. induction fuel as [|fuel IH]; intros st k1 k2 K; simpl.
  - apply K. lia.
  - rewrite (B st _ (fun st' =>
               if length (rest st') <? length (rest st)
               then starLoop body k2 fuel st' else None)).
    + rewrite (K st) by lia. reflexivity.
    + intros st' L. destruct (length (rest st') <? length (rest st)) eqn:E;
        [|reflexivity].
      apply IH. intros st'' L'. apply K. lia.
Qed.

Lemma run_ext (r : regex) :
  forall (A : Type) (st : mstate) (k1 k2 : mstate -> option A),
    (forall st', length (rest st') <= length (rest st) -> k1 st' = k2 st') ->
    run r st k1 = run r st k2.
Proof.
  induction r as [|p|r1 IH1 r2 IH2|r1 IH1 r2 IH2|r IH| | |i r IH];
    intros A st k1 k2 K; simpl.
  - apply K. lia.
  - destruct (rest st) as [|c t] eqn:R; [reflexivity|].
    destruct (p c); [|reflexivity]. apply K. simpl. lia.
  - apply IH1. intros st' L. apply IH2. intros st'' L'. apply K. lia.
  - rewrite (IH1 A st k1 k2 K), (IH2 A st k1 k2 K). reflexivity.
  - apply starLoop_ext; [|exact K].
    intros st0 k3 k4 K0. now apply IH.
  - destruct (atStart st); [|reflexivity]. apply K. lia.
  - destruct (rest st) eqn:R; [|reflexivity]. apply K. rewrite R. simpl. lia.
  - apply IH. intros st' L. apply K. simpl. exact L.
Qed.

Lemma run_no_continuation (r : regex) (A : Type) (st : mstate) :
  run r st (fun _ => @None A) = None.
Proof.
  destruct (run r st (fun _ => @None A)) as [a|] eqn:E; [|reflexivity].
  apply run_sound in E. destruct E as [_ [_ [_ [_ E]]]]. discriminate E.
Qed.

Lemma starLoop_fuel {A : Type} (r : regex) (k : mstate -> option A) :
  forall fuel1 fuel2 st,
    length (rest st) <= fuel1 -> length (rest st) <= fuel2 ->
    starLoop (fun st' k' => run r st' k') k fuel1 st
    = starLoop (fun st' k' => run r st' k') k fuel2 st.
Proof.
  assert (Z : forall fuel st, length (rest st) = 0 ->
            starLoop (fun st' k' => run r st' k') k fuel st = k st).
  { intros [|fuel] st L; simpl; [reflexivity|].
    rewrite (run_ext r A st _ (fun _ => None)).
    - now rewrite run_no_continuation.
    - intros st' L'. rewrite L.
      assert (E : (length (rest st') <? 0) = false)
        by (apply Nat.ltb_ge; lia).
      now rewrite E. }
  induction fuel1 as [|fuel1 IH]; intros fuel2 st L1 L2.
  - rewrite !Z by lia. reflexivity.
  - destruct fuel2 as [|fuel2]; [rewrite !Z by lia; reflexivity|].
    simpl.
    rewrite (run_ext r A st _ (fun st' =>
               if length (rest st') <? length (rest st)
               then starLoop (fun st0 k' => run r st0 k') k fuel2 st'
               else None)); [reflexivity|].
    intros st' L. destruct (length (rest st') <? length (rest st)) eqn:E;
      [|reflexivity].
    apply Nat.ltb_lt in E. apply IH; lia.
Qed.

(** The loop of the source engine, without fuel: [r*] tries one more
    iteration that consumes input and then itself again, and falls back to
    the continuation. *)
Lemma run_Star_unfold (r : regex) (A : Type) (st : mstate)
    (k : mstate -> option A) :
  run (Star r) st k =
  match run r st (fun st' =>
          if length (rest st') <? length (rest st)
          then run (Star r) st' k else None) with
  | Some a => Some a
  | None => k st
  end.
Proof.
  cbn [run]. destruct (length (rest st)) as [|n] eqn:L.
  - cbn [starLoop].
    rewrite (run_ext r A st _ (fun _ => None)).
    + now rewrite run_no_continuation.
    + intros st' _. reflexivity.
  - cbn [starLoop]. rewrite L.
    rewrite (run_ext r A st _ (fun st' =>
               if length (rest st') <? S n
               then starLoop (fun st0 k' => run r st0 k') k
                             (length (rest st')) st'
               else None)); [reflexivity|].
    intros st' L'. destruct (length (rest st') <? S n) eqn:E;
      [|reflexivity].
    apply Nat.ltb_lt in E. apply starLoop_fuel; lia.
Qed.

(** A successful match splits the input into the matched text and what
    follows it. *)
Lemma execAt_matched (r : regex) (bol : bool) (s : jsstring) (m : mresult) :
  execAt r bol s = Some m -> s = matched m ++ after m /\ Matches r (matched m).
Proof.
  unfold execAt.
  destruct (run r (mkState bol s []) (fun st => Some st)) as [st|] eqn:E;
    [|discriminate].
  intros H. injection H as <-. simpl.
  apply run_sound in E. destruct E as [w [st' [R [M K]]]].
  injection K as ->. simpl in R.
  assert (F : firstn (length s - length (rest st)) s = w).
  { rewrite R at 1 2. rewrite length_app.
    replace (length w + length (rest st) - length (rest st))
      with (length w + 0) by lia.
    rewrite firstn_app_2. simpl. apply app_nil_r. }
  rewrite F. auto.
Qed.

Lemma Matches_Cat_inv (r1 r2 : regex) (w : jsstring) :
  Matches (Cat r1 r2) w ->
  exists w1 w2, w = w1 ++ w2 /\ Matches r1 w1 /\ Matches r2 w2.
Proof. intros H. inversion H; subst. eauto. Qed.

Lemma Matches_chr_inv (c : ascii) (w : jsstring) :
  Matches (chr c) w -> w = [c].
Proof.
  intros H. inversion H as [|p d E| | | | | | | |]; subst.
  apply Ascii.eqb_eq in E. now subst.
Qed.

Lemma Matches_star_chr (c : ascii) (w : jsstring) :
  Matches (Star (chr c)) w -> w = [] \/ exists w', w = w' ++ [c].
Proof.
  intros H. remember (Star (chr c)) as r eqn:R.
  induction H; try discriminate.
  - now left.
  - injection R as ->. right.
    apply Matches_chr_inv in H. subst w1.
    destruct (IHMatches2 eq_refl) as [->|[w' ->]].
    + exists []. reflexivity.
    + exists (c :: w'). reflexivity.
Qed.

Lemma Matches_plus_chr (c : ascii) (w : jsstring) :
  Matches (plus (chr c)) w -> exists w', w = w' ++ [c].
Proof.
  intros H. apply Matches_Cat_inv in H.
  destruct H as [w1 [w2 [-> [H1 H2]]]].
  apply Matches_chr_inv in H1. subst w1.
  apply Matches_star_chr in H2. destruct H2 as [->|[w' ->]].
  - exists []. reflexivity.
  - exists (c :: w'). reflexivity.
Qed.

(** Every word of the shortstat expression holds an opening parenthesis
    directly followed by a closing one. *)
Lemma shortstat_needs_paren_pair (w : jsstring) :
  Matches shortstatPattern w -> exists x y, w = x ++ str "()" ++ y.
Proof.
  intros H. unfold shortstatPattern in H. cbn [seq] in H.
  apply Matches_Cat_inv in H. destruct H as [w1 [u1 [-> [_ H]]]].
  apply Matches_Cat_inv in H. destruct H as [w2 [u2 [-> [_ H]]]].
  apply Matches_Cat_inv in H. destruct H as [w3 [u3 [-> [_ H]]]].
  apply Matches_Cat_inv in H. destruct H as [w4 [u4 [-> [H4 H]]]].
  apply Matches_Cat_inv in H. destruct H as [w5 [u5 [-> [H5 _]]]].
  apply Matches_plus_chr in H4. destruct H4 as [w4' ->].
  apply Matches_chr_inv in H5. subst w5.
  exists (w1 ++ w2 ++ w3 ++ w4'), u5.
  rewrite <- !app_assoc. reflexivity.
Qed.

(** ** [includes] and substrings *)

Lemma startsWith_app (n y : jsstring) : startsWith (n ++ y) n = true.
Proof.
  induction n as [|c n IH]; simpl; [now destruct y|].
  now rewrite Ascii.eqb_refl, IH.
Qed.

Lemma startsWith_inv (s n : jsstring) :
  startsWith s n = true -> exists y, s = n ++ y.
Proof.
  revert s; induction n as [|c n IH]; intros s H.
  - exists s. reflexivity.
  - destruct s as [|d s]; simpl in H; [discriminate|].
    apply andb_true_iff in H. destruct H as [E H].
    apply Ascii.eqb_eq in E. subst d.
    apply IH in H. destruct H as [y ->]. exists y. reflexivity.
Qed.

Lemma includes_unfold (s n : jsstring) :
  includes s n =
  startsWith s n || match s with [] => false | _ :: s' => includes s' n end.
Proof. destruct s; reflexivity. Qed.

Lemma includes_spec (s n : jsstring) :
  includes s n = true <-> exists x y, s = x ++ n ++ y.
Proof.
  split.
  - induction s as [|c s IH]; rewrite includes_unfold; intros H.
    + rewrite orb_false_r in H. apply startsWith_inv in H.
      destruct H as [y ->]. exists [], y. reflexivity.
    + apply orb_true_iff in H. destruct H as [H|H].
      * apply startsWith_inv in H. destruct H as [y ->].
        exists [], y. reflexivity.
      * apply IH in H. destruct H as [x [y ->]].
        exists (c :: x), y. reflexivity.
  - intros [x [y ->]]. induction x as [|c x IH].
    + simpl. rewrite includes_unfold, (startsWith_app n y). reflexivity.
    + change ((c :: x) ++ n ++ y) with (c :: (x ++ n ++ y)).
      rewrite includes_unfold, IH. apply orb_true_r.
Qed.

Lemma includes_substring (a s b n : jsstring) :
  includes (a ++ s ++ b) n = false -> includes s n = false.
Proof.
  intros H. destruct (includes s n) eqn:E; [|reflexivity].
  apply includes_spec in E. destruct E as [x [y ->]].
  assert (T : includes (a ++ (x ++ n ++ y) ++ b) n = true).
  { apply includes_spec. exists (a ++ x), (y ++ b).
    now rewrite <- !app_assoc. }
  congruence.
Qed.

Lemma dropWhile_suffix (p : ascii -> bool) (s : jsstring) :
  exists a, s = a ++ dropWhile p s.
Proof.
  induction s as [|c s [a IH]]; simpl.
  - exists []. reflexivity.
  - destruct (p c).
    + exists (c :: a). simpl. now rewrite <- IH.
    + exists []. reflexivity.
Qed.

Lemma trim_substring (s : jsstring) : exists a b, s = a ++ trim s ++ b.
Proof.
  unfold trim.
  destruct (dropWhile_suffix isSpace s) as [a Ha].
  destruct (dropWhile_suffix isSpace (rev (dropWhile isSpace s))) as [b Hb].
  exists a, (rev b).
  rewrite <- rev_app_distr, <- Hb, rev_involutive. exact Ha.
Qed.

(** ** The shortstat expression never matches git's summary *)

Lemma shortstat_no_match (s : jsstring) :
  includes s (str "()") = false -> search shortstatPattern true s = None.
Proof.
  intros H. destruct (search shortstatPattern true s) as [m|] eqn:E;
    [|reflexivity].
  apply search_sound in E. destruct E as [w [S M]].
  apply shortstat_needs_paren_pair in M. destruct M as [x [y ->]].
  assert (T : includes s (str "()") = true).
  { apply includes_spec. exists (before m ++ x), (y ++ after m).
    rewrite S, <- !app_assoc. reflexivity. }
  congruence.
Qed.

Lemma getDetailed_without_paren_pair (out : jsstring) :
  includes out (str "()") = false ->
  search shortstatPattern true (trim out) = None /\
  getDetailedCommitMessage (Some out) = str "Update".
Proof.
  intros H.
  assert (N : search shortstatPattern true (trim out) = None).
  { apply shortstat_no_match.
    destruct (trim_substring out) as [a [b E]].
    rewrite E in H. now apply includes_substring in H. }
  split; [exact N|].
  unfold getDetailedCommitMessage. rewrite N. reflexivity.
Qed.

Lemma includes_skip_no_open (a b : jsstring) :
  Forall (fun c => c <> ch "(") a ->
  includes (a ++ b) (str "()") = includes b (str "()").
Proof.
  induction 1 as [|c a Hc Ha IH]; [reflexivity|].
  change ((c :: a) ++ b) with (c :: (a ++ b)).
  rewrite includes_unfold, IH.
  change (str "()") with [ch "("; ch ")"]. cbn [startsWith].
  destruct (Ascii.eqb (ch "(") c) eqn:E; [|reflexivity].
  apply Ascii.eqb_eq in E. congruence.
Qed.

Lemma includes_no_close (t : jsstring) :
  Forall (fun c => c <> ch ")") t -> includes t (str "()") = false.
Proof.
  induction 1 as [|c t Hc Ht IH]; [reflexivity|].
  rewrite includes_unfold, IH, orb_false_r.
  change (str "()") with [ch "("; ch ")"]. cbn [startsWith].
  destruct t as [|d t]; [apply andb_false_r|].
  inversion Ht as [|? ? Hd _]; subst.
  destruct (Ascii.eqb (ch ")") d) eqn:E.
  - apply Ascii.eqb_eq in E. congruence.
  - apply andb_false_r.
Qed.

Lemma digit_not_open (c : ascii) : isDigit c = true -> c <> ch "(".
Proof. intros H ->. discriminate H. Qed.

Lemma includes_cons_other (c : ascii) (s : jsstring) :
  c <> ch "(" -> includes (c :: s) (str "()") = includes s (str "()").
Proof.
  intros H. apply (includes_skip_no_open [c] s). now constructor.
Qed.

Lemma includes_open_other (d : ascii) (s : jsstring) :
  d <> ch ")" ->
  includes (ch "(" :: d :: s) (str "()") = includes (d :: s) (str "()").
Proof.
  intros H. rewrite includes_unfold.
  change (str "()") with [ch "("; ch ")"]. cbn [startsWith].
  destruct (Ascii.eqb (ch ")") d) eqn:E; [|reflexivity].
  apply Ascii.eqb_eq in E. congruence.
Qed.

Lemma shortstatSummary_no_paren_pair (prefix n m suffix : jsstring)
    (pluralIns pluralDel : bool) :
  Forall (fun c => c <> ch "(") prefix ->
  Forall (fun c => isDigit c = true) n ->
  Forall (fun c => isDigit c = true) m ->
  Forall (fun c => c <> ch ")") suffix ->
  includes (shortstatSummary prefix n m suffix pluralIns pluralDel) (str "()")
  = false.
Proof.
  intros Hp Hn Hm Hs. unfold shortstatSummary.
  rewrite includes_skip_no_open by exact Hp.
  rewrite includes_skip_no_open
    by (eapply Forall_impl; [|exact Hn]; apply digit_not_open).
  assert (D : forall rest,
             includes (m ++ rest) (str "()") = includes rest (str "()")).
  { intros rest. apply includes_skip_no_open.
    eapply Forall_impl; [|exact Hm]. apply digit_not_open. }
  pose proof (includes_no_close suffix Hs) as C.
  destruct pluralIns, pluralDel;
    repeat match goal with
           | |- context [str ?x ++ ?y] =>
               let l := eval cbv in (str x) in
               change (str x ++ y) with (l ++ y); cbn [app]
           end;
    repeat first
      [ rewrite D
      | rewrite includes_open_other by (intros X; discriminate X)
      | rewrite includes_cons_other by (intros X; discriminate X) ];
    exact C.
Qed.

(** C9.  For every summary of git's shortstat shape, with any digits for
    the two counts and either noun singular or plural, the parse expression
    of [getDetailedCommitMessage] finds no match, both counts default to
    zero, and the verb returned is [Update], hence none of [Add], [Remove],
    [Enhance], [Simplify]. *)
Theorem shortstat_never_parsed (prefix n m suffix : jsstring)
    (pluralIns pluralDel : bool) :
  Forall (fun c => c <> ch "(") prefix ->
  Forall (fun c => isDigit c = true) n ->
  Forall (fun c => isDigit c = true) m ->
  Forall (fun c => c <> ch ")") suffix ->
  let out := shortstatSummary prefix n m suffix pluralIns pluralDel in
  search shortstatPattern true (trim out) = None /\
  getDetailedCommitMessage (Some out) = str "Update" /\
  ~ In (getDetailedCommitMessage (Some out))
       (map str ["Add"; "Remove"; "Enhance"; "Simplify"]).
Proof.
  intros Hp Hn Hm Hs out.
  destruct (getDetailed_without_paren_pair out) as [N U].
  { now apply shortstatSummary_no_paren_pair. }
  repeat split; [exact N | exact U |].
  rewrite U. vm_compute. intros H.
  repeat (destruct H as [H|H]; [discriminate H|]). exact H.
Qed.

Lemma shortstat_never_parsed_witness :
  getDetailedCommitMessage
    (Some (shortstatSummary (str " 2 files changed, ") (str "10") (str "5")
             [LF] true true))
  = str "Update".
Proof.
  apply (shortstat_never_parsed (str " 2 files changed, ") (str "10")
           (str "5") [LF] true true).
  - repeat constructor; discriminate.
  - repeat constructor.
  - repeat constructor.
  - repeat constructor; discriminate.
Defined.

(** For contrast, the verbs are reachable once the counts are read: a
    summary written the way the expression expects it. *)
Example verb_on_matching_text :
  getDetailedCommitMessage (Some (str "10 insertion(), 5 deletion(-)"))
  = str "Update" /\
  getDetailedCommitMessage (Some (str "10 insertion(), 0 deletion(-)"))
  = str "Add" /\
  getDetailedCommitMessage (Some (str "9 insertion() 2 deletion(-"))
  = str "Enhance".
Proof. repeat split; vm_compute; reflexivity. Qed.

(** ** Sanitising: what the two stripping steps remove *)

Lemma replaceAllFrom_S (fuel : nat) (r : regex) (rep : jsstring) (bol : bool)
    (s : jsstring) :
  replaceAllFrom (S fuel) r rep bol s =
  match execAt r bol s with
  | Some m =>
      match matched m, s with
      | [], c :: t => rep ++ c :: replaceAllFrom fuel r rep false t
      | [], [] => rep
      | _ :: _, _ => rep ++ replaceAllFrom fuel r rep false (after m)
      end
  | None =>
      match s with
      | [] => []
      | c :: t => c :: replaceAllFrom fuel r rep false t
      end
  end.
Proof. reflexivity. Qed.

Lemma replaceFirstFrom_unfold (r : regex) (rep : jsstring) (bol : bool)
    (s : jsstring) :
  replaceFirstFrom r rep bol s =
  match execAt r bol s with
  | Some m => rep ++ after m
  | None =>
      match s with
      | [] => []
      | c :: t => c :: replaceFirstFrom r rep false t
      end
  end.
Proof. destruct s; reflexivity. Qed.

Lemma firstn_head (c : ascii) (t : jsstring) :
  firstn (length (c :: t) - length t) (c :: t) = [c].
Proof.
  simpl length. replace (S (length t) - length t) with 1 by lia. reflexivity.
Qed.

Lemma execAt_quotes_nil (bol : bool) : execAt surroundingQuotes bol [] = None.
Proof. destruct bol; reflexivity. Qed.

Lemma execAt_quotes (bol : bool) (c : ascii) (t : jsstring) :
  execAt surroundingQuotes bol (c :: t) =
  if isQuoteChar c && (bol || isEmpty t)
  then Some (mkResult [] [c] t []) else None.
Proof.
  unfold execAt, surroundingQuotes, quote, isQuoteChar.
  cbn [run rest atStart caps].
  destruct (Ascii.eqb c DQUOTE || Ascii.eqb c SQUOTE);
    destruct bol; cbn [andb orb rest caps]; try reflexivity.
  - now rewrite firstn_head.
  - destruct t; cbn [isEmpty rest caps]; [|reflexivity].
    now rewrite firstn_head.
Qed.

Lemma replaceAllFrom_nil (fuel : nat) (r : regex) (bol : bool) :
  execAt r bol [] = None -> replaceAllFrom fuel r [] bol [] = [].
Proof.
  intros H. destruct fuel; [reflexivity|].
  now rewrite replaceAllFrom_S, H.
Qed.

Lemma stripQuotes_inner (s : jsstring) :
  forall fuel, length s < fuel ->
    replaceAllFrom fuel surroundingQuotes [] false s
    = dropLastIf isQuoteChar s.
Proof.
  induction s as [|c t IH]; intros fuel L.
  - apply replaceAllFrom_nil, execAt_quotes_nil.
  - destruct fuel as [|fuel]; [simpl in L; lia|].
    rewrite replaceAllFrom_S, execAt_quotes. cbn [orb].
    destruct t as [|d t'].
    + cbn [isEmpty]. rewrite andb_true_r. cbn [dropLastIf].
      destruct (isQuoteChar c); cbn [matched after app].
      * apply replaceAllFrom_nil, execAt_quotes_nil.
      * f_equal. apply replaceAllFrom_nil, execAt_quotes_nil.
    + cbn [isEmpty]. rewrite andb_false_r.
      change (dropLastIf isQuoteChar (c :: d :: t'))
        with (c :: dropLastIf isQuoteChar (d :: t')).
      f_equal. apply IH. simpl in *. lia.
Qed.

(** The expression-based quote step is: one quote off the front, then one
    quote off the end. *)
Lemma stripQuotes_spec (s : jsstring) :
  stripQuotes s = dropLastIf isQuoteChar (dropFirstIf isQuoteChar s).
Proof.
  unfold stripQuotes, replaceAll. destruct s as [|c t].
  - reflexivity.
  - rewrite replaceAllFrom_S, execAt_quotes. cbn [orb].
    rewrite andb_true_r. cbn [dropFirstIf].
    destruct (isQuoteChar c) eqn:Q.
    + cbn [matched after app]. apply stripQuotes_inner. simpl. lia.
    + destruct t as [|d t'].
      * cbn [dropLastIf]. rewrite Q. reflexivity.
      * change (dropLastIf isQuoteChar (c :: d :: t'))
          with (c :: dropLastIf isQuoteChar (d :: t')).
        f_equal. apply stripQuotes_inner. simpl. lia.
Qed.

Lemma dropLastIf_snoc (p : ascii -> bool) (s : jsstring) (c : ascii) :
  p c = true -> dropLastIf p (s ++ [c]) = s.
Proof.
  intros H. induction s as [|d s IH]; simpl.
  - now rewrite H.
  - destruct (s ++ [c]) eqn:E.
    + destruct s; discriminate E.
    + now rewrite IH.
Qed.

Lemma execAt_period (bol : bool) (s : jsstring) :
  execAt trailingPeriod bol s =
  match s with
  | [c] => if isDot c then Some (mkResult [] [c] [] []) else None
  | _ => None
  end.
Proof.
  unfold execAt, trailingPeriod, isDot.
  destruct s as [|c [|d t]]; try reflexivity.
  - change (lit ".") with (chr (ch ".")). unfold chr.
    cbn [run rest atStart caps]. rewrite (Ascii.eqb_sym (ch ".") c).
    destruct (Ascii.eqb c (ch ".")); reflexivity.
  - change (lit ".") with (chr (ch ".")). unfold chr.
    cbn [run rest atStart caps].
    destruct (Ascii.eqb (ch ".") c); reflexivity.
Qed.

Lemma stripPeriod_from (s : jsstring) :
  forall bol, replaceFirstFrom trailingPeriod [] bol s = dropLastIf isDot s.
Proof.
  induction s as [|c t IH]; intros bol.
  - reflexivity.
  - rewrite replaceFirstFrom_unfold, execAt_period.
    destruct t as [|d t'].
    + simpl. destruct (isDot c); reflexivity.
    + change (dropLastIf isDot (c :: d :: t'))
        with (c :: dropLastIf isDot (d :: t')).
      f_equal. apply IH.
Qed.

(** The expression-based period step is: one period off the end. *)
Lemma stripPeriod_spec (s : jsstring) : stripPeriod s = dropLastIf isDot s.
Proof. apply stripPeriod_from. Qed.

Lemma acceptCleaned_spec (c m : jsstring) :
  acceptCleaned m = Some c <-> c = m /\ 0 < length c /\ length c < 100.
Proof.
  unfold acceptCleaned.
  destruct (0 <? length m) eqn:A; destruct (length m <? 100) eqn:B;
    cbn [andb].
  - apply Nat.ltb_lt in A, B. split.
    + intros H. injection H as <-. auto.
    + intros [-> _]. reflexivity.
  - apply Nat.ltb_ge in B. split; [discriminate|].
    intros [-> [H1 H2]]. lia.
  - apply Nat.ltb_ge in A. split; [discriminate|].
    intros [-> [H1 H2]]. lia.
  - apply Nat.ltb_ge in A. split; [discriminate|].
    intros [-> [H1 H2]]. lia.
Qed.

Example sanitize_quoted_sentence :
  Llama.sanitize (DQUOTE :: str "Fix the parser." ++ [DQUOTE])
  = Some (str "Fix the parser") /\
  Ollama.sanitize (DQUOTE :: str "Fix the parser." ++ [DQUOTE])
  = Some (str "Fix the parser").
Proof. split; vm_compute; reflexivity. Qed.

Example sanitize_nested_quotes :
  Llama.sanitize (str "''Fix..''") = Some (str "'Fix..'").
Proof. vm_compute. reflexivity. Qed.

Example sanitize_blank : Ollama.sanitize (str "   ") = None.
Proof. vm_compute. reflexivity. Qed.

Example sanitize_too_long :
  Ollama.sanitize (repeat (ch "a") 100) = None /\
  Ollama.sanitize (repeat (ch "a") 99) = Some (repeat (ch "a") 99).
Proof. split; vm_compute; reflexivity. Qed.

(** ** The matcher on realistic diffs *)

Example scenarioC_async_function :
  let files := [str "src/api.js"] in
  let a := analyzeCodeChanges files (str "+async function fetchData() {}") in
  functions a = [str "fetchData"] /\
  map action (patterns a) = map str ["Add async functionality"; "Add API calls"] /\
  generateCommitMessage (categorizeFiles files) a (mkOptions false false)
  = str "async functionality with 1 function".
Proof. repeat split; vm_compute; reflexivity. Qed.

Example analysis_of_mixed_diff :
  let files := map str ["src/api.js"; "src/api.test.js"] in
  let diff :=
    str "+const add = (a, b) => a + b;" ++ LF ::
    str "-class Foo extends Bar {" ++ LF ::
    str " unchanged line" ++ LF ::
    str "+  it('works', () => { expect(1).toBe(1); });" in
  let a := analyzeCodeChanges files diff in
  functions a = map str ["add"; "Foo"] /\
  CodeAnalysis.tests a = [str "it('works', () => { expect("] /\
  map action (patterns a) = [str "Add test cases"] /\
  generateCommitMessage (categorizeFiles files) a (mkOptions false false)
  = str "test cases with 2 functions".
Proof. repeat split; vm_compute; reflexivity. Qed.

Example detailed_verbose_message :
  ruleBasedMessage (map str ["Makefile"; "a.sh"; "b.test.txt"; "x.vue"]) []
    (Some (str " 4 files changed, 7 insertions(+), 1 deletion(-)"))
    (mkOptions true true)
  = str ("Update: Update documentation (b.test.txt), "
         ++ "Update stylesheet (x.vue), Update script (a.sh), "
         ++ "Update file (Makefile)").
Proof. vm_compute. reflexivity. Qed.

(* ================================================================== *)
(** * Further properties of the scripts *)

(** ** Categorisation *)

(** X1.  Categorising two lists one after the other: each bucket of the
    joined list is the bucket of the first list followed by the bucket of
    the second, so files keep their staging order inside a bucket. *)
Theorem categorizeFiles_app (l1 l2 : list jsstring) (k : Category) :
  bucket k (categorizeFiles (l1 ++ l2))
  = bucket k (categorizeFiles l1) ++ bucket k (categorizeFiles l2).
Proof.
  rewrite !bucket_categorizeFiles. apply filter_app.
Qed.

Lemma takeWhile_Forall (p : ascii -> bool) (s : jsstring) :
  Forall (fun c => p c = true) (takeWhile p s).
Proof.
  induction s as [|c s IH]; simpl; [constructor|].
  destruct (p c) eqn:E; constructor; assumption.
Qed.

Lemma extname_shape (file : jsstring) :
  extname file = [] \/
  exists t, extname file = ch "." :: t /\ Forall (fun c => isDot c = false) t.
Proof.
  unfold extname.
  set (b := basename file).
  set (afterDot := takeWhile (fun c => negb (isDot c)) (rev b)).
  destruct (skipn (length afterDot) (rev b)) as [|d before]; [now left|].
  destruct before as [|e before]; [now left|].
  destruct (jseq b (str "..")); [now left|].
  right. exists (rev afterDot). split; [reflexivity|].
  apply Forall_rev.
  pose proof (takeWhile_Forall (fun c => negb (isDot c)) (rev b)) as F.
  eapply Forall_impl; [|exact F].
  intros c H. simpl in H. now apply negb_true_iff in H.
Qed.

Lemma lowerChar_dot (c : ascii) : isDot (lowerChar c) = true -> isDot c = true.
Proof.
  destruct c as [[] [] [] [] [] [] [] []]; intros H;
    first [reflexivity | discriminate H].
Qed.

Lemma lowered_ext_single_dot (file : jsstring) (a b : jsstring) :
  toLowerCase (extname file) <> ch "." :: a ++ ch "." :: b.
Proof.
  destruct (extname_shape file) as [E|[t [E F]]]; rewrite E.
  - discriminate.
  - unfold toLowerCase. simpl. intros H. injection H as H.
    assert (I : In (ch ".") (map lowerChar t)).
    { rewrite H. apply in_or_app. right. left. reflexivity. }
    apply in_map_iff in I. destruct I as [c [L I]].
    rewrite Forall_forall in F. specialize (F c I).
    assert (D : isDot (lowerChar c) = true) by (rewrite L; reflexivity).
    apply lowerChar_dot in D. congruence.
Qed.

(** X2.  The two extension comparisons of the test branch are dead: the
    lower-cased extension of a path has one dot only, so it is never
    [.test.js] nor [.spec.js], and the test branch is decided by the
    basename alone. *)
Theorem test_extension_comparisons_dead (file : jsstring) :
  let ext := toLowerCase (extname file) in
  jseq ext (str ".test.js") = false /\
  jseq ext (str ".spec.js") = false /\
  (classify file = Tests ->
   includes (toLowerCase (basename file)) (str "test")
   || includes (toLowerCase (basename file)) (str "spec") = true).
Proof.
  intros ext.
  assert (T : jseq ext (str ".test.js") = false).
  { apply jseq_neq. apply (lowered_ext_single_dot file (str "test") (str "js")). }
  assert (S : jseq ext (str ".spec.js") = false).
  { apply jseq_neq. apply (lowered_ext_single_dot file (str "spec") (str "js")). }
  repeat split; [exact T | exact S |].
  unfold classify. fold ext. rewrite T, S, !orb_false_r.
  repeat match goal with
         | |- context [if ?b then _ else _] => destruct b eqn:?
         end; intros H; try discriminate H; reflexivity.
Qed.

Lemma test_extension_comparisons_dead_witness :
  includes (toLowerCase (basename (str "notes.spec"))) (str "test")
  || includes (toLowerCase (basename (str "notes.spec"))) (str "spec") = true.
Proof.
  apply (proj2 (proj2 (test_extension_comparisons_dead (str "notes.spec")))).
  reflexivity.
Defined.

Lemma arrIncludes_In (l : list jsstring) (x : jsstring) :
  arrIncludes l x = true <-> In x l.
Proof.
  unfold arrIncludes. rewrite existsb_exists. split.
  - intros [y [I E]]. apply jseq_eq in E. now subst.
  - intros I. exists x. split; [exact I | apply jseq_refl].
Qed.

(** X3.  Entries of the extension lists that an earlier branch shadows:
    a path with extension [.md] is always configuration and never
    documentation, one with [.py] is always code, and a path only lands
    in the scripts bucket with one of [.sh], [.bash], [.zsh], [.fish],
    [.pl]. *)
Theorem shadowed_extensions (file : jsstring) :
  let ext := toLowerCase (extname file) in
  (ext = str ".md" -> classify file = Config) /\
  (ext = str ".py" -> classify file = Code) /\
  (classify file = Docs -> ext <> str ".md") /\
  (classify file = Scripts ->
   In ext (map str [".sh"; ".bash"; ".zsh"; ".fish"; ".pl"])).
Proof.
  intros ext.
  assert (M : ext = str ".md" -> classify file = Config).
  { intros E. unfold classify. fold ext. rewrite E. reflexivity. }
  repeat split.
  - exact M.
  - intros E. unfold classify. fold ext. rewrite E. reflexivity.
  - intros D E. rewrite (M E) in D. discriminate D.
  - unfold classify. fold ext.
    destruct (arrIncludes codeExts ext) eqn:C; [discriminate|].
    repeat match goal with
           | |- context [if ?b then _ else _] => destruct b eqn:?
           end; intros H; try discriminate H.
    match goal with
    | S : arrIncludes scriptExts ext = true |- _ =>
        apply arrIncludes_In in S; simpl in S;
        destruct S as [S|[S|[S|[S|[S|[S|[]]]]]]];
        try (rewrite <- S; simpl; auto 10; fail);
        rewrite <- S in C; discriminate C
    end.
Qed.

Lemma shadowed_extensions_witness : classify (str "docs/GUIDE.MD") = Config.
Proof.
  apply (proj1 (shadowed_extensions (str "docs/GUIDE.MD"))). reflexivity.
Defined.

(** ** The category clauses *)

Lemma join_In (sep : jsstring) (l : list jsstring) (x : jsstring) :
  In x l -> exists a b, join sep l = a ++ x ++ b.
Proof.
  induction l as [|y l IH]; intros H; [destruct H|].
  destruct H as [->|H].
  - destruct l as [|z l].
    + exists [], []. simpl. now rewrite app_nil_r.
    + exists [], (sep ++ join sep (z :: l)). reflexivity.
  - destruct l as [|z l]; [destruct H|].
    destruct (IH H) as [a [b E]].
    exists (y ++ sep ++ a), b.
    change (join sep (y :: z :: l)) with (y ++ sep ++ join sep (z :: l)).
    rewrite E, <- !app_assoc. reflexivity.
Qed.

Lemma includes_trans (a b c : jsstring) :
  includes a b = true -> includes b c = true -> includes a c = true.
Proof.
  intros H1 H2. apply includes_spec in H1. apply includes_spec in H2.
  destruct H1 as [x [y ->]]. destruct H2 as [u [v ->]].
  apply includes_spec. exists (x ++ u), (v ++ y).
  now rewrite <- !app_assoc.
Qed.

Lemma startsWith_app_l (x y p : jsstring) :
  startsWith x p = true -> startsWith (x ++ y) p = true.
Proof.
  intros H. apply startsWith_inv in H. destruct H as [z ->].
  rewrite <- app_assoc. apply startsWith_app.
Qed.

Lemma addCategoryMessage_shape (v : bool) (m cat : list jsstring)
    (name verb adj : jsstring) :
  (cat = [] /\ addCategoryMessage v m cat name verb adj = m) \/
  (cat <> [] /\
   exists cl,
     addCategoryMessage v m cat name verb adj = m ++ [cl] /\
     startsWith cl (verb ++ str " ") = true /\
     (v = true -> forall f, In f cat -> includes cl f = true)).
Proof.
  destruct cat as [|f0 cat]; [left; auto|].
  right. split; [discriminate|].
  unfold addCategoryMessage.
  set (fileList := if v then _ else _).
  set (a := match adj with [] => [] | _ => _ end).
  assert (I : v = true -> forall f, In f (f0 :: cat) ->
                includes fileList f = true).
  { intros -> f H. unfold fileList.
    destruct (join_In (str ", ") (f0 :: cat) f H) as [x [y E]].
    apply includes_spec. exists (str " (" ++ x), (y ++ str ")").
    rewrite E, <- !app_assoc. reflexivity. }
  destruct (length (f0 :: cat) =? 1); eexists; (split; [reflexivity|]); split.
  - rewrite app_assoc. apply startsWith_app.
  - intros V f H. eapply includes_trans; [|exact (I V f H)].
    apply includes_spec. exists (verb ++ str " " ++ a ++ name), [].
    now rewrite app_nil_r, <- !app_assoc.
  - rewrite app_assoc. apply startsWith_app.
  - intros V f H. eapply includes_trans; [|exact (I V f H)].
    apply includes_spec.
    exists (verb ++ str " " ++ numToString (length (f0 :: cat)) ++ str " "
              ++ name), [].
    now rewrite app_nil_r, <- !app_assoc.
Qed.

Lemma addCategoryMessage_incl (v : bool) (m cat : list jsstring)
    (name verb adj cl : jsstring) :
  In cl m -> In cl (addCategoryMessage v m cat name verb adj).
Proof.
  intros H.
  destruct (addCategoryMessage_shape v m cat name verb adj)
    as [[_ E]|[_ [c [E _]]]]; rewrite E; [exact H|].
  apply in_or_app. now left.
Qed.

Lemma addCategoryMessage_new (v : bool) (m cat : list jsstring)
    (name verb adj : jsstring) :
  cat <> [] ->
  exists cl, In cl (addCategoryMessage v m cat name verb adj) /\
             (v = true -> forall f, In f cat -> includes cl f = true).
Proof.
  intros N.
  destruct (addCategoryMessage_shape v m cat name verb adj)
    as [[E _]|[_ [c [E [_ I]]]]]; [contradiction|].
  exists c. rewrite E. split; [|exact I].
  apply in_or_app. right. now left.
Qed.

Lemma addCategoryMessage_verb (v : bool) (m cat : list jsstring)
    (name verb adj : jsstring) :
  Forall (fun cl => startsWith cl (verb ++ str " ") = true) m ->
  Forall (fun cl => startsWith cl (verb ++ str " ") = true)
         (addCategoryMessage v m cat name verb adj).
Proof.
  intros F.
  destruct (addCategoryMessage_shape v m cat name verb adj)
    as [[_ E]|[_ [c [E [S _]]]]]; rewrite E; [exact F|].
  apply Forall_app. split; [exact F|]. now constructor.
Qed.

(** The clause of a bucket that is not empty is part of the message. *)
Lemma categoryMessage_clause (cats : categories) (v : bool) (k : Category) :
  bucket k cats <> [] ->
  exists cl,
    includes (categoryMessage cats v) cl = true /\
    (v = true -> forall f, In f (bucket k cats) -> includes cl f = true).
Proof.
  intros N. unfold categoryMessage.
  set (m1 := addCategoryMessage v [] (code cats) _ _ _).
  set (m2 := addCategoryMessage v m1 (config cats) _ _ _).
  set (m3 := addCategoryMessage v m2 (docs cats) _ _ _).
  set (m4 := addCategoryMessage v m3 (tests cats) _ _ _).
  set (m5 := addCategoryMessage v m4 (styles cats) _ _ _).
  set (m6 := addCategoryMessage v m5 (scripts cats) _ _ _).
  set (m7 := addCategoryMessage v m6 (other cats) _ _ _).
  assert (C : exists cl, In cl m7 /\
                (v = true -> forall f, In f (bucket k cats) ->
                               includes cl f = true)).
  { destruct k; simpl in N |- *.
    - destruct (addCategoryMessage_new v [] (code cats) (str "code file")
                  (str "Update") (str "source") N) as [cl [I P]].
      exists cl. split; [|exact P].
      unfold m7, m6, m5, m4, m3, m2.
      do 6 apply addCategoryMessage_incl. exact I.
    - destruct (addCategoryMessage_new v m1 (config cats)
                  (str "configuration") (str "Update") [] N) as [cl [I P]].
      exists cl. split; [|exact P].
      unfold m7, m6, m5, m4, m3, m2.
      do 5 apply addCategoryMessage_incl. exact I.
    - destruct (addCategoryMessage_new v m2 (docs cats)
                  (str "documentation") (str "Update") [] N) as [cl [I P]].
      exists cl. split; [|exact P].
      unfold m7, m6, m5, m4, m3, m2.
      do 4 apply addCategoryMessage_incl. exact I.
    - destruct (addCategoryMessage_new v m3 (tests cats)
                  (str "test") (str "Update") [] N) as [cl [I P]].
      exists cl. split; [|exact P].
      unfold m7, m6, m5, m4, m3, m2.
      do 3 apply addCategoryMessage_incl. exact I.
    - destruct (addCategoryMessage_new v m4 (styles cats)
                  (str "stylesheet") (str "Update") [] N) as [cl [I P]].
      exists cl. split; [|exact P].
      unfold m7, m6, m5, m4, m3, m2.
      do 2 apply addCategoryMessage_incl. exact I.
    - destruct (addCategoryMessage_new v m5 (scripts cats)
                  (str "script") (str "Update") [] N) as [cl [I P]].
      exists cl. split; [|exact P].
      unfold m7, m6, m5, m4, m3, m2.
      do 1 apply addCategoryMessage_incl. exact I.
    - destruct (addCategoryMessage_new v m6 (other cats)
                  (str "file") (str "Update") [] N) as [cl [I P]].
      exists cl. split; [|exact P]. exact I. }
  destruct C as [cl [I P]]. exists cl. split; [|exact P].
  destruct m7 as [|x m7']; [destruct I|].
  destruct (join_In (str ", ") (x :: m7') cl I) as [a [b E]].
  apply includes_spec. exists a, b. exact E.
Qed.

Lemma categoryMessage_verb (cats : categories) (v : bool) :
  startsWith (categoryMessage cats v) (str "Update ") = true.
Proof.
  unfold categoryMessage.
  set (m7 := addCategoryMessage v _ (other cats) _ _ _).
  assert (F : Forall (fun cl => startsWith cl (str "Update" ++ str " ") = true)
                     m7).
  { unfold m7. repeat apply addCategoryMessage_verb. constructor. }
  destruct m7 as [|x [|y m]]; [reflexivity| |].
  - inversion F; subst. assumption.
  - inversion F; subst.
    change (join (str ", ") (x :: y :: m))
      with (x ++ str ", " ++ join (str ", ") (y :: m)).
    now apply startsWith_app_l.
Qed.

(** X4.  With verbose on and no pattern match, the message names every
    staged file: each path of the input occurs in it verbatim. *)
Theorem verbose_message_names_every_file (files : list jsstring)
    (ca : CodeAnalysis.t) (opts : options) (f : jsstring) :
  patterns ca = [] -> verbose opts = true -> In f files ->
  includes (generateCommitMessage (categorizeFiles files) ca opts) f = true /\
  includes (Basic.generateCommitMessage (categorizeFiles files) opts) f = true.
Proof.
  intros P V I.
  assert (G : includes (categoryMessage (categorizeFiles files) (verbose opts))
                       f = true).
  { assert (B : In f (bucket (classify f) (categorizeFiles files))).
    { rewrite bucket_categorizeFiles. apply filter_In. split; [exact I|].
      apply Category_eqb_eq. reflexivity. }
    destruct (categoryMessage_clause (categorizeFiles files) (verbose opts)
                (classify f)) as [cl [C Q]].
    { intros E. rewrite E in B. destruct B. }
    eapply includes_trans; [exact C|]. now apply Q. }
  split; [|exact G].
  unfold generateCommitMessage. rewrite P. exact G.
Qed.

Lemma verbose_message_names_every_file_witness :
  includes (generateCommitMessage
              (categorizeFiles (map str ["a.css"; "lib/b.sh"]))
              emptyAnalysis (mkOptions true false))
           (str "lib/b.sh") = true.
Proof.
  apply (verbose_message_names_every_file (map str ["a.css"; "lib/b.sh"])
           emptyAnalysis (mkOptions true false) (str "lib/b.sh"));
    simpl; auto.
Defined.

(** X5.  Without a pattern match the message always opens with the verb
    [Update] and a space, for any buckets and either setting of verbose,
    so the capitalisation that follows changes nothing. *)
Theorem category_message_opens_with_verb (cats : categories)
    (ca : CodeAnalysis.t) (opts : options) :
  patterns ca = [] ->
  startsWith (generateCommitMessage cats ca opts) (str "Update ") = true /\
  capitalize (generateCommitMessage cats ca opts)
  = generateCommitMessage cats ca opts.
Proof.
  intros P. unfold generateCommitMessage. rewrite P.
  pose proof (categoryMessage_verb cats (verbose opts)) as S.
  split; [exact S|].
  apply startsWith_inv in S. destruct S as [y ->]. reflexivity.
Qed.

Lemma category_message_opens_with_verb_witness :
  capitalize (generateCommitMessage (categorizeFiles scenarioB) emptyAnalysis
                                    (mkOptions false true))
  = generateCommitMessage (categorizeFiles scenarioB) emptyAnalysis
                          (mkOptions false true).
Proof.
  apply (category_message_opens_with_verb (categorizeFiles scenarioB)
           emptyAnalysis (mkOptions false true)).
  reflexivity.
Defined.

Lemma addCategoryMessage_quiet (m c1 c2 : list jsstring)
    (name verb adj : jsstring) :
  length c1 = length c2 ->
  addCategoryMessage false m c1 name verb adj
  = addCategoryMessage false m c2 name verb adj.
Proof.
  intros L. destruct c1, c2; try discriminate L; [reflexivity|].
  unfold addCategoryMessage. now rewrite L.
Qed.

(** X6.  With verbose off the category message depends on the sizes of
    the seven buckets only: two categorisations with the same counts give
    the same text, whatever the file names are. *)
Theorem quiet_message_depends_on_counts (cats1 cats2 : categories) :
  (forall k, length (bucket k cats1) = length (bucket k cats2)) ->
  categoryMessage cats1 false = categoryMessage cats2 false.
Proof.
  intros L. unfold categoryMessage.
  pose proof (L Code) as L1. pose proof (L Config) as L2.
  pose proof (L Docs) as L3. pose proof (L Tests) as L4.
  pose proof (L Styles) as L5. pose proof (L Scripts) as L6.
  pose proof (L Other) as L7. simpl in *.
  rewrite (addCategoryMessage_quiet [] _ _ _ _ _ L1).
  rewrite (addCategoryMessage_quiet _ _ _ _ _ _ L2).
  rewrite (addCategoryMessage_quiet _ _ _ _ _ _ L3).
  rewrite (addCategoryMessage_quiet _ _ _ _ _ _ L4).
  rewrite (addCategoryMessage_quiet _ _ _ _ _ _ L5).
  rewrite (addCategoryMessage_quiet _ _ _ _ _ _ L6).
  rewrite (addCategoryMessage_quiet _ _ _ _ _ _ L7).
  reflexivity.
Qed.

Lemma quiet_message_depends_on_counts_witness :
  categoryMessage (categorizeFiles (map str ["a.js"; "b.css"])) false
  = categoryMessage (categorizeFiles (map str ["x/y.py"; "z.vue"])) false.
Proof.
  apply quiet_message_depends_on_counts. intros k. destruct k; reflexivity.
Defined.

(** ** Trimming and lines *)

Lemma dropWhile_nil_iff (p : ascii -> bool) (s : jsstring) :
  dropWhile p s = [] <-> Forall (fun c => p c = true) s.
Proof.
  induction s as [|c s IH]; simpl.
  - split; [constructor | reflexivity].
  - destruct (p c) eqn:E.
    + rewrite IH. split; [now constructor | now inversion 1].
    + split; [discriminate|]. inversion 1; congruence.
Qed.

Lemma dropWhile_head (p : ascii -> bool) (s : jsstring) (c : ascii)
    (t : jsstring) :
  dropWhile p s = c :: t -> p c = false.
Proof.
  induction s as [|d s IH]; simpl; [discriminate|].
  destruct (p d) eqn:E; [exact IH|].
  intros H. injection H as -> _. exact E.
Qed.

Lemma dropWhile_id (p : ascii -> bool) (c : ascii) (t : jsstring) :
  p c = false -> dropWhile p (c :: t) = c :: t.
Proof. intros H. simpl. now rewrite H. Qed.

Lemma dropWhile_length (p : ascii -> bool) (s : jsstring) :
  length (dropWhile p s) <= length s.
Proof.
  induction s as [|c s IH]; simpl; [lia|].
  destruct (p c); simpl; lia.
Qed.

(** The end of a trimmed text is no white space. *)
Lemma trim_last (s t : jsstring) (c : ascii) :
  trim s = t ++ [c] -> isSpace c = false.
Proof.
  unfold trim. intros H.
  apply (f_equal (@rev ascii)) in H.
  rewrite rev_involutive, rev_app_distr in H. simpl in H.
  now apply dropWhile_head in H.
Qed.

(** Nor is its start. *)
Lemma trim_head (s t : jsstring) (c : ascii) :
  trim s = c :: t -> isSpace c = false.
Proof.
  unfold trim. intros H.
  destruct (dropWhile_suffix isSpace (rev (dropWhile isSpace s))) as [a E].
  apply (f_equal (@rev ascii)) in E.
  rewrite rev_involutive, rev_app_distr, H in E.
  simpl in E. now apply dropWhile_head in E.
Qed.

Lemma trim_fixed (s : jsstring) :
  (forall c t, s = c :: t -> isSpace c = false) ->
  (forall t c, s = t ++ [c] -> isSpace c = false) ->
  trim s = s.
Proof.
  intros Hh Hl. unfold trim. destruct s as [|c t]; [reflexivity|].
  rewrite (dropWhile_id isSpace c t (Hh c t eq_refl)).
  destruct (rev (c :: t)) as [|d u] eqn:R.
  - apply (f_equal (@rev ascii)) in R. rewrite rev_involutive in R.
    discriminate R.
  - assert (E : c :: t = rev u ++ [d]).
    { rewrite <- (rev_involutive (c :: t)), R. reflexivity. }
    rewrite (dropWhile_id isSpace d u (Hl (rev u) d E)).
    rewrite <- R. apply rev_involutive.
Qed.

Lemma trim_idem (s : jsstring) : trim (trim s) = trim s.
Proof.
  apply trim_fixed.
  - intros c t H. now apply trim_head in H.
  - intros t c H. now apply trim_last in H.
Qed.

Lemma trim_nil_iff (s : jsstring) :
  trim s = [] <-> Forall (fun c => isSpace c = true) s.
Proof.
  unfold trim. split.
  - intros H. apply (f_equal (@rev ascii)) in H.
    rewrite rev_involutive in H. simpl in H.
    apply dropWhile_nil_iff in H. apply Forall_rev in H.
    rewrite rev_involutive in H.
    destruct (dropWhile isSpace s) as [|c t] eqn:D.
    + now apply dropWhile_nil_iff.
    + apply dropWhile_head in D. inversion H; congruence.
  - intros H. apply dropWhile_nil_iff in H. now rewrite H.
Qed.

Lemma trim_trailing_LF (s : jsstring) :
  (forall c t, s = c :: t -> isSpace c = false) ->
  (forall t c, s = t ++ [c] -> isSpace c = false) ->
  trim (s ++ [LF]) = s.
Proof.
  intros Hh Hl. destruct s as [|c t]; [reflexivity|].
  transitivity (trim (c :: t)); [|now apply trim_fixed].
  pose proof (Hh c t eq_refl) as Hc.
  unfold trim. cbn [app dropWhile]. rewrite Hc.
  change (c :: t ++ [LF]) with ((c :: t) ++ [LF]).
  rewrite rev_app_distr. reflexivity.
Qed.

Lemma splitLines_nonempty (s : jsstring) : splitLines s <> [].
Proof.
  destruct s as [|c t]; simpl; [discriminate|].
  destruct (Ascii.eqb c LF); [discriminate|].
  destruct (splitLines t); discriminate.
Qed.

Lemma splitLines_no_LF (s : jsstring) :
  Forall (fun line => ~ In LF line) (splitLines s).
Proof.
  induction s as [|c t IH]; simpl.
  - constructor; [tauto | constructor].
  - destruct (Ascii.eqb c LF) eqn:E.
    + constructor; [tauto | exact IH].
    + destruct (splitLines t) as [|l ls]; [constructor; [|constructor]|].
      * intros [H|[]]. subst c. now rewrite Ascii.eqb_refl in E.
      * inversion IH; subst. constructor; [|assumption].
        intros [H|H]; [|contradiction].
        subst c. now rewrite Ascii.eqb_refl in E.
Qed.

Lemma splitLines_single (a : jsstring) :
  ~ In LF a -> splitLines a = [a].
Proof.
  induction a as [|c a IH]; intros N; [reflexivity|].
  simpl. destruct (Ascii.eqb c LF) eqn:E.
  - apply Ascii.eqb_eq in E. subst c. exfalso. apply N. now left.
  - rewrite IH; [reflexivity|]. intros H. apply N. now right.
Qed.

Lemma splitLines_app (a b : jsstring) :
  ~ In LF a -> splitLines (a ++ LF :: b) = a :: splitLines b.
Proof.
  induction a as [|c a IH]; intros N.
  - reflexivity.
  - simpl. destruct (Ascii.eqb c LF) eqn:E.
    + apply Ascii.eqb_eq in E. subst c. exfalso. apply N. now left.
    + rewrite IH; [reflexivity|]. intros H. apply N. now right.
Qed.

Lemma splitLines_join (names : list jsstring) :
  names <> [] ->
  Forall (fun n => ~ In LF n) names ->
  splitLines (join [LF] names) = names.
Proof.
  induction names as [|n names IH]; intros N F; [contradiction|].
  inversion F as [|? ? Fn Fr]; subst.
  destruct names as [|n' names].
  - simpl. now apply splitLines_single.
  - change (join [LF] (n :: n' :: names))
      with (n ++ LF :: join [LF] (n' :: names)).
    rewrite splitLines_app by exact Fn.
    rewrite IH; [reflexivity | discriminate | exact Fr].
Qed.

Lemma join_head (names : list jsstring) (c : ascii) (t : jsstring) :
  Forall plainName names -> join [LF] names = c :: t -> isSpace c = false.
Proof.
  intros F H. destruct names as [|n names]; [discriminate H|].
  inversion F as [|? ? [Ne [_ [Hh _]]] _]; subst.
  destruct n as [|d n]; [contradiction|].
  destruct names; simpl in H; injection H as E _; rewrite <- E;
    apply (Hh d n eq_refl).
Qed.

Lemma join_last (names : list jsstring) (t : jsstring) (c : ascii) :
  Forall plainName names -> join [LF] names = t ++ [c] -> isSpace c = false.
Proof.
  revert t. induction names as [|n names IH]; intros t F H.
  - destruct t; discriminate H.
  - inversion F as [|? ? [Ne [_ [_ Hl]]] Fr]; subst.
    destruct names as [|n' names].
    + simpl in H. now apply (Hl t c).
    + change (join [LF] (n :: n' :: names))
        with (n ++ LF :: join [LF] (n' :: names)) in H.
      destruct (join [LF] (n' :: names)) as [|x xs] eqn:J.
      * inversion Fr as [|? ? [Ne' _] _]; subst.
        destruct n'; [contradiction|]. destruct names; discriminate J.
      * destruct (exists_last (l := x :: xs)) as [u [d E]]; [discriminate|].
        rewrite E in H.
        change (n ++ LF :: u ++ [d]) with (n ++ (LF :: u) ++ [d]) in H.
        rewrite app_assoc in H. apply app_inj_tail in H.
        destruct H as [_ <-]. now apply (IH u Fr).
Qed.

(** ** Reading git's output *)

Lemma filter_all {A : Type} (p : A -> bool) (l : list A) :
  Forall (fun x => p x = true) l -> filter p l = l.
Proof.
  induction 1 as [|x l H _ IH]; simpl; [reflexivity|].
  now rewrite H, IH.
Qed.

(** X7.  Every entry that [getStagedFiles] (and [getGitStatus]) returns is
    a non-empty text without line feed; a git call that threw, and an
    output of white space only, give the empty list. *)
Theorem staged_files_are_nonempty_lines :
  (forall git f, In f (getStagedFiles git) -> f <> [] /\ ~ In LF f) /\
  (forall git, getGitStatus git = getStagedFiles git) /\
  getStagedFiles None = [] /\
  (forall out, Forall (fun c => isSpace c = true) out ->
               getStagedFiles (Some out) = []).
Proof.
  repeat split.
  - destruct git as [out|]; [|destruct H].
    simpl in H. unfold outputLines in H. apply filter_In in H.
    destruct H as [_ H]. apply Nat.ltb_lt in H.
    intros ->. simpl in H. lia.
  - destruct git as [out|]; [|destruct H].
    simpl in H. unfold outputLines in H. apply filter_In in H.
    destruct H as [H _].
    pose proof (splitLines_no_LF (trim out)) as F.
    rewrite Forall_forall in F. now apply F.
  - intros out H. simpl. unfold outputLines.
    apply trim_nil_iff in H. rewrite H. reflexivity.
Qed.

Lemma staged_files_are_nonempty_lines_witness :
  getStagedFiles (Some (str "  " ++ [LF; LF])) = [].
Proof.
  apply (proj2 (proj2 (proj2 staged_files_are_nonempty_lines))).
  repeat constructor.
Defined.

Lemma plainName_ends (c : ascii) (body : jsstring) (d : ascii) :
  isSpace c = false -> isSpace d = false ->
  ~ In LF (c :: body ++ [d]) -> plainName (c :: body ++ [d]).
Proof.
  intros Hc Hd N. split; [discriminate|]. split; [exact N|]. split.
  - intros c' t H. injection H as E _. now rewrite <- E.
  - intros t c' H.
    change (c :: body ++ [d]) with ((c :: body) ++ [d]) in H.
    apply app_inj_tail in H. destruct H as [_ E]. now rewrite <- E.
Qed.

(** X8.  Reading back what git prints: for file names that are not empty,
    hold no line feed and neither start nor end with white space, the
    names printed one per line, each closed by a line feed, are returned
    as they are and in order. *)
Theorem staged_files_round_trip (names : list jsstring) :
  Forall plainName names ->
  getStagedFiles (Some (join [LF] names ++ [LF])) = names.
Proof.
  intros F. simpl. unfold outputLines.
  destruct names as [|n names]; [reflexivity|].
  rewrite trim_trailing_LF.
  - rewrite splitLines_join.
    + apply filter_all. eapply Forall_impl; [|exact F].
      intros x [Ne _]. apply Nat.ltb_lt.
      destruct x; [contradiction | simpl; lia].
    + discriminate.
    + eapply Forall_impl; [|exact F]. intros x [_ [N _]]. exact N.
  - intros c t H. now apply (join_head (n :: names) c t).
  - intros t c H. now apply (join_last (n :: names) t c).
Qed.

Lemma staged_files_round_trip_witness :
  getStagedFiles
    (Some (join [LF] (map str ["src/app.js"; "my notes.txt"]) ++ [LF]))
  = map str ["src/app.js"; "my notes.txt"].
Proof.
  apply staged_files_round_trip.
  change (map str ["src/app.js"; "my notes.txt"])
    with [ch "s" :: str "rc/app.j" ++ [ch "s"];
          ch "m" :: str "y notes.tx" ++ [ch "t"]].
  constructor; [|constructor; [|constructor]];
    (apply plainName_ends; [reflexivity | reflexivity |]);
    intros H; simpl in H;
    repeat (destruct H as [H|H]; [discriminate H|]); exact H.
Defined.

Lemma not_all_iff_some (p : ascii -> bool) (s : jsstring) :
  ~ Forall (fun c => p c = true) s <-> exists c, In c s /\ p c = false.
Proof.
  induction s as [|d s IH].
  - split; [intros H; exfalso; apply H; constructor | intros [c [[] _]]].
  - split.
    + intros H. destruct (p d) eqn:E.
      * assert (N : ~ Forall (fun c => p c = true) s)
          by (intros F; apply H; now constructor).
        apply IH in N. destruct N as [c [I P]].
        exists c. split; [now right | exact P].
      * exists d. split; [now left | exact E].
    + intros [c [[->|I] P]] F; inversion F; subst; [congruence|].
      apply (proj2 IH); [|assumption]. now exists c.
Qed.

(** X9.  [hasStagedChanges] answers yes exactly when git's stat output
    holds a character that is not white space; a git call that threw
    counts as no. *)
Theorem hasStagedChanges_iff :
  hasStagedChanges None = false /\
  (forall out,
      hasStagedChanges (Some out) = true <->
      exists c, In c out /\ isSpace c = false).
Proof.
  split; [reflexivity|]. intros out. simpl.
  rewrite <- not_all_iff_some, <- trim_nil_iff, Nat.ltb_lt.
  destruct (trim out); simpl; split; intros H;
    first [lia | discriminate | (exfalso; now apply H) | idtac].
Qed.

(** ** Command-line values *)

Lemma indexOf_absent (args : list jsstring) (flag : jsstring) :
  ~ In flag args -> indexOf args flag = None.
Proof.
  induction args as [|a args IH]; intros N; [reflexivity|].
  simpl. destruct (jseq a flag) eqn:E.
  - apply jseq_eq in E. exfalso. apply N. now left.
  - rewrite IH; [reflexivity|]. intros H. apply N. now right.
Qed.

Lemma indexOf_first (pre post : list jsstring) (flag : jsstring) :
  ~ In flag pre -> indexOf (pre ++ flag :: post) flag = Some (length pre).
Proof.
  induction pre as [|a pre IH]; intros N; simpl.
  - now rewrite jseq_refl.
  - destruct (jseq a flag) eqn:E.
    + apply jseq_eq in E. exfalso. apply N. now left.
    + rewrite IH; [reflexivity|]. intros H. apply N. now right.
Qed.

(** X10.  [getArgValue] returns the argument that follows the first
    occurrence of the flag, whatever that argument is; it returns null
    when the flag is absent and when its first occurrence is the last
    argument. *)
Theorem getArgValue_spec (flag : jsstring) :
  (forall args, ~ In flag args -> getArgValue args flag = None) /\
  (forall pre value post,
      ~ In flag pre ->
      getArgValue (pre ++ flag :: value :: post) flag = Some value) /\
  (forall pre, ~ In flag pre -> getArgValue (pre ++ [flag]) flag = None).
Proof.
  repeat split.
  - intros args N. unfold getArgValue. now rewrite indexOf_absent.
  - intros pre value post N. unfold getArgValue.
    rewrite indexOf_first by exact N.
    assert (L : (length pre + 1 <? length (pre ++ flag :: value :: post))
                = true).
    { apply Nat.ltb_lt. rewrite length_app. simpl. lia. }
    rewrite L.
    replace (length pre + 1) with (length (pre ++ [flag]))
      by (rewrite length_app; reflexivity).
    change (pre ++ flag :: value :: post)
      with (pre ++ [flag] ++ value :: post).
    rewrite app_assoc, nth_error_app2 by lia.
    now rewrite Nat.sub_diag.
  - intros pre N. unfold getArgValue.
    rewrite indexOf_first by exact N.
    assert (L : (length pre + 1 <? length (pre ++ [flag])) = false).
    { apply Nat.ltb_ge. rewrite length_app. simpl. lia. }
    now rewrite L.
Qed.

Lemma getArgValue_spec_witness :
  getArgValue (map str ["-v"; "--model"; "--ollama"; "--model"; "x"])
              (str "--model")
  = Some (str "--ollama").
Proof.
  apply (proj1 (proj2 (getArgValue_spec (str "--model")))
           [str "-v"] (str "--ollama") (map str ["--model"; "x"])).
  intros [H|[]]. discriminate H.
Defined.

(** ** Choosing the model *)

Lemma truthy_Some (v : option jsstring) :
  truthy v = true -> exists m, v = Some m /\ m <> [].
Proof.
  destruct v as [[|c m]|]; simpl; try discriminate.
  intros _. eexists. split; [reflexivity | discriminate].
Qed.

Lemma find_preferred (pre post : list jsstring) (p : jsstring)
    (names : list jsstring) :
  (forall q, In q pre -> ~ In q names) -> In p names ->
  find (fun m => arrIncludes names m) (pre ++ p :: post) = Some p.
Proof.
  intros N I. induction pre as [|q pre IH]; simpl.
  - now rewrite (proj2 (arrIncludes_In names p) I).
  - destruct (arrIncludes names q) eqn:E.
    + apply arrIncludes_In in E. exfalso. apply (N q); [now left | exact E].
    + apply IH. intros r H. apply N. now right.
Qed.

Lemma selectModel_Some (u : option jsstring) (names : list jsstring)
    (m : jsstring) :
  selectModel u names = Some m ->
  truthy (Some m) = true /\ (u = Some m \/ In m names).
Proof.
  unfold selectModel.
  set (model := if truthy u then u else _).
  destruct (truthy model) eqn:T; [|discriminate].
  intros H. rewrite H in T. split; [exact T|].
  subst model. unfold jsOr in H.
  destruct (truthy u); [now left|]. right.
  destruct (truthy (find _ defaultModels)).
  - apply find_some in H. destruct H as [_ H]. now apply arrIncludes_In in H.
  - destruct names; [discriminate H|]. injection H as <-. now left.
Qed.

(** X11.  The model the Ollama generator uses.  A non-empty model named
    by the caller is taken as it is, installed or not.  Otherwise the
    first name of the preferred list that the server lists is taken, and
    without any such name the first listed one.  A model that is chosen is
    never the empty name and, unless the caller named it, is one the
    server lists; with no name from the caller and an empty inventory
    none is chosen. *)
Theorem selectModel_spec :
  (forall m names, m <> [] -> selectModel (Some m) names = Some m) /\
  (forall u names m,
      selectModel u names = Some m ->
      m <> [] /\ (u = Some m \/ In m names)) /\
  (forall u names pre p post,
      truthy u = false -> p <> [] ->
      defaultModels = pre ++ p :: post ->
      (forall q, In q pre -> ~ In q names) -> In p names ->
      selectModel u names = Some p) /\
  (forall u first others,
      truthy u = false -> first <> [] ->
      (forall q, In q defaultModels -> ~ In q (first :: others)) ->
      selectModel u (first :: others) = Some first) /\
  (forall u, truthy u = false -> selectModel u [] = None).
Proof.
  repeat split.
  - intros m names N. unfold selectModel.
    destruct m; [contradiction | reflexivity].
  - destruct (selectModel_Some u names m H) as [T _].
    intros ->. discriminate T.
  - now destruct (selectModel_Some u names m H) as [_ O].
  - intros u names pre p post U N D Q I. unfold selectModel, jsOr.
    rewrite U, D.
    pose proof (find_preferred pre post p names Q I) as F.
    unfold jsstring in *. rewrite F.
    destruct p; [contradiction | reflexivity].
  - intros u first others U N Q. unfold selectModel, jsOr. rewrite U.
    assert (F : find (fun m => arrIncludes (first :: others) m) defaultModels
                = None).
    { destruct (find _ defaultModels) as [q|] eqn:E; [|reflexivity].
      apply find_some in E. destruct E as [I A].
      apply arrIncludes_In in A. exfalso. now apply (Q q). }
    rewrite F. simpl. destruct first; [contradiction | reflexivity].
  - intros u U. unfold selectModel, jsOr. rewrite U. reflexivity.
Qed.

Lemma selectModel_spec_witness :
  selectModel None (map str ["mistral:7b"; "gemma3n:latest"; "llama2:latest"])
  = Some (str "llama2:latest").
Proof.
  apply (proj1 (proj2 (proj2 selectModel_spec)) None
           (map str ["mistral:7b"; "gemma3n:latest"; "llama2:latest"])
           [] (str "llama2:latest")
           (map str ["gemma3n:latest"; "deepseek-r1:latest"; "gpt-oss:20b"])).
  - reflexivity.
  - discriminate.
  - reflexivity.
  - intros q [].
  - simpl. auto.
Defined.

(** ** The shape of an accepted remote message *)

Lemma run_Chr (A : Type) (p : ascii -> bool) (st : mstate)
    (k : mstate -> option A) :
  run (Chr p) st k =
  match rest st with
  | c :: t => if p c then k (mkState false t (caps st)) else None
  | [] => None
  end.
Proof. reflexivity. Qed.

Lemma run_Cat (A : Type) (r1 r2 : regex) (st : mstate)
    (k : mstate -> option A) :
  run (Cat r1 r2) st k = run r1 st (fun st' => run r2 st' k).
Proof. reflexivity. Qed.

Lemma run_star_Chr (p : ascii -> bool) (caps0 : list (nat * jsstring))
    (s : jsstring) :
  forall b, exists b',
    run (Star (Chr p)) (mkState b s caps0) (fun st => Some st)
    = Some (mkState b' (dropWhile p s) caps0).
Proof.
  induction s as [|d t IH]; intros b; rewrite run_Star_unfold, run_Chr;
    cbn [rest caps dropWhile].
  - exists b. reflexivity.
  - destruct (p d).
    + assert (L : (length t <? length (d :: t)) = true)
        by (apply Nat.ltb_lt; simpl; lia).
      rewrite L. destruct (IH false) as [b' E]. exists b'.
      now rewrite E.
    + exists b. reflexivity.
Qed.

Lemma execAt_newlines_other (b : bool) (s : jsstring) :
  (forall t, s <> LF :: t) -> execAt newlines b s = None.
Proof.
  intros N. unfold execAt, newlines, plus, chr.
  rewrite run_Cat, run_Chr. cbn [rest].
  destruct s as [|c t]; [reflexivity|].
  destruct (Ascii.eqb LF c) eqn:E; [|reflexivity].
  apply Ascii.eqb_eq in E. subst c. exfalso. now apply (N t).
Qed.

Lemma execAt_newlines_LF (b : bool) (t : jsstring) :
  exists m, execAt newlines b (LF :: t) = Some m /\
            after m = dropWhile (Ascii.eqb LF) t /\ matched m <> [].
Proof.
  unfold execAt, newlines, plus, chr.
  rewrite run_Cat, run_Chr. cbn [rest caps].
  rewrite Ascii.eqb_refl.
  destruct (run_star_Chr (Ascii.eqb LF) [] t false) as [b' E].
  rewrite E. eexists. split; [reflexivity|]. cbn [after matched rest].
  split; [reflexivity|].
  pose proof (dropWhile_length (Ascii.eqb LF) t) as L.
  simpl length.
  destruct (S (length t) - length (dropWhile (Ascii.eqb LF) t)) eqn:D;
    [lia | discriminate].
Qed.

Lemma newlines_replaced (fuel : nat) :
  forall s b, length s < fuel ->
              ~ In LF (replaceAllFrom fuel newlines (str " ") b s).
Proof.
  induction fuel as [|fuel IH]; intros s b L; [lia|].
  rewrite replaceAllFrom_S. destruct s as [|c t].
  - rewrite execAt_newlines_other by discriminate. simpl. tauto.
  - destruct (Ascii.eqb LF c) eqn:E.
    + apply Ascii.eqb_eq in E. subst c.
      destruct (execAt_newlines_LF b t) as [m [X [A M]]].
      rewrite X. destruct (matched m) as [|x xs]; [contradiction|].
      rewrite A. intros [H|H]; [discriminate H|].
      revert H. apply IH.
      pose proof (dropWhile_length (Ascii.eqb LF) t). simpl in L. lia.
    + rewrite execAt_newlines_other.
      * intros [H|H].
        -- subst c. now rewrite Ascii.eqb_refl in E.
        -- revert H. apply IH. simpl in L. lia.
      * intros t' H. injection H as -> _. now rewrite Ascii.eqb_refl in E.
Qed.

Lemma replaceFirstFrom_subset (r : regex) (s : jsstring) :
  forall b c, In c (replaceFirstFrom r [] b s) -> In c s.
Proof.
  induction s as [|d s IH]; intros b c; rewrite replaceFirstFrom_unfold.
  - destruct (execAt r b []) as [m|] eqn:E; [|tauto].
    apply execAt_sound in E. destruct E as [w [S _]].
    symmetry in S. apply app_eq_nil in S. destruct S as [_ S].
    simpl app. now rewrite S.
  - destruct (execAt r b (d :: s)) as [m|] eqn:E.
    + apply execAt_sound in E. destruct E as [w [S _]].
      simpl app. rewrite S. intros H. apply in_or_app. now right.
    + intros [H|H]; [now left | right; now apply (IH false)].
Qed.

Lemma trim_subset (s : jsstring) (c : ascii) : In c (trim s) -> In c s.
Proof.
  intros H. destruct (trim_substring s) as [a [b E]]. rewrite E.
  apply in_or_app. right. apply in_or_app. now left.
Qed.

Lemma firstLine_fixed (s : jsstring) : ~ In LF s -> firstLine s = s.
Proof.
  unfold firstLine. induction s as [|c s IH]; intros N; [reflexivity|].
  simpl. destruct (Ascii.eqb c LF) eqn:E.
  - apply Ascii.eqb_eq in E. subst c. exfalso. apply N. now left.
  - simpl. rewrite IH; [reflexivity|]. intros H. apply N. now right.
Qed.

Lemma cleaned_single_trimmed_line (x : jsstring) :
  ~ In LF x ->
  ~ In LF (firstLine (trim x)) /\
  trim (firstLine (trim x)) = firstLine (trim x).
Proof.
  intros N.
  assert (T : ~ In LF (trim x)) by (intros H; apply N; now apply trim_subset).
  rewrite (firstLine_fixed _ T). split; [exact T | apply trim_idem].
Qed.

Lemma Llama_cleaned_shape (response : jsstring) :
  ~ In LF (Llama.cleanedMessage response) /\
  trim (Llama.cleanedMessage response) = Llama.cleanedMessage response.
Proof.
  unfold Llama.cleanedMessage. apply cleaned_single_trimmed_line.
  unfold replaceAll. apply newlines_replaced. lia.
Qed.

Lemma Ollama_cleaned_shape (response : jsstring) :
  ~ In LF (Ollama.cleanedMessage response) /\
  trim (Ollama.cleanedMessage response) = Ollama.cleanedMessage response.
Proof.
  unfold Ollama.cleanedMessage. apply cleaned_single_trimmed_line.
  intros H. unfold replaceFirst in H.
  apply replaceFirstFrom_subset in H. apply replaceFirstFrom_subset in H.
  revert H. unfold replaceAll. apply newlines_replaced. lia.
Qed.

Lemma Llama_sanitize_Some (response m : jsstring) :
  Llama.sanitize response = Some m ->
  m = Llama.cleanedMessage response /\ 0 < length m /\ length m < 100.
Proof.
  destruct response; [discriminate|]. apply acceptCleaned_spec.
Qed.

Lemma Ollama_sanitize_Some (response m : jsstring) :
  Ollama.sanitize response = Some m ->
  m = Ollama.cleanedMessage response /\ 0 < length m /\ length m < 100.
Proof.
  destruct response; [discriminate|]. apply acceptCleaned_spec.
Qed.

(** ** Sanitising, end to end *)

Lemma search_unfold (r : regex) (bol : bool) (s : jsstring) :
  search r bol s =
  match execAt r bol s with
  | Some m => Some m
  | None =>
      match s with
      | [] => None
      | c :: t =>
          match search r false t with
          | Some m => Some (mkResult (c :: before m) (matched m)
                                     (after m) (groups m))
          | None => None
          end
      end
  end.
Proof. destruct s; reflexivity. Qed.

(** Where the expression matches nowhere, replacing changes nothing. *)
Lemma replaceFirstFrom_no_match (r : regex) (rep s : jsstring) :
  forall bol, search r bol s = None -> replaceFirstFrom r rep bol s = s.
Proof.
  induction s as [|c t IH]; intros bol H;
    rewrite search_unfold in H; rewrite replaceFirstFrom_unfold;
    destruct (execAt r bol _); try discriminate H; [reflexivity|].
  f_equal. apply IH. destruct (search r false t); [discriminate H|reflexivity].
Qed.

Lemma replaceFirst_no_match (r : regex) (rep s : jsstring) :
  test r s = false -> replaceFirst r rep s = s.
Proof.
  unfold test, replaceFirst. intros H.
  apply replaceFirstFrom_no_match.
  destruct (search r true s); [discriminate H | reflexivity].
Qed.

Lemma replaceAllFrom_newlines_id (fuel : nat) :
  forall s b, ~ In LF s -> replaceAllFrom fuel newlines (str " ") b s = s.
Proof.
  induction fuel as [|fuel IH]; intros s b N; [reflexivity|].
  rewrite replaceAllFrom_S, execAt_newlines_other.
  - destruct s as [|c t]; [reflexivity|].
    f_equal. apply IH. intros H. apply N. now right.
  - intros t ->. apply N. now left.
Qed.

(** A text of one line is left alone by the line-feed step. *)
Lemma newlines_id (s : jsstring) :
  ~ In LF s -> replaceAll newlines (str " ") s = s.
Proof. apply replaceAllFrom_newlines_id. Qed.

Lemma quote_not_space (c : ascii) : isQuoteChar c = true -> isSpace c = false.
Proof.
  destruct c as [[] [] [] [] [] [] [] []]; intros H;
    first [reflexivity | discriminate H].
Qed.

Lemma dropFirstIf_id (p : ascii -> bool) (s : jsstring) :
  (forall c t, s = c :: t -> p c = false) -> dropFirstIf p s = s.
Proof.
  destruct s as [|c t]; [reflexivity|]. intros H.
  cbn [dropFirstIf]. now rewrite (H c t eq_refl).
Qed.

Lemma dropLastIf_id (p : ascii -> bool) (s : jsstring) :
  (forall t c, s = t ++ [c] -> p c = false) -> dropLastIf p s = s.
Proof.
  induction s as [|c t IH]; [reflexivity|]. intros H.
  destruct t as [|d t'].
  - cbn [dropLastIf]. now rewrite (H [] c eq_refl).
  - change (dropLastIf p (c :: d :: t')) with (c :: dropLastIf p (d :: t')).
    f_equal. apply IH. intros u e E. apply (H (c :: u) e).
    now rewrite E.
Qed.

Lemma stripped_quoted (q1 q2 : ascii) (body : jsstring) :
  isQuoteChar q1 = true -> isQuoteChar q2 = true ->
  stripped (q1 :: body ++ str "." ++ [q2]) = body.
Proof.
  intros Q1 Q2. unfold stripped.
  assert (X : q1 :: body ++ str "." ++ [q2]
              = (q1 :: body ++ str ".") ++ [q2])
    by (cbn [app]; now rewrite app_assoc).
  rewrite trim_fixed.
  - cbn [dropFirstIf]. rewrite Q1, app_assoc.
    rewrite (dropLastIf_snoc isQuoteChar _ q2 Q2).
    now apply dropLastIf_snoc.
  - intros c t E. injection E as <- _. now apply quote_not_space.
  - intros t c E. rewrite X in E.
    apply app_inj_tail in E. destruct E as [_ <-].
    now apply quote_not_space.
Qed.

Lemma stripped_plain (s : jsstring) :
  trim s = s ->
  (forall c t, s = c :: t -> isQuoteChar c = false) ->
  (forall t c, s = t ++ [c] -> isQuoteChar c = false /\ isDot c = false) ->
  stripped s = s.
Proof.
  intros T F L. unfold stripped. rewrite T.
  rewrite (dropFirstIf_id _ _ F).
  rewrite (dropLastIf_id isQuoteChar)
    by (intros t c E; apply (L t c E)).
  apply dropLastIf_id. intros t c E. apply (L t c E).
Qed.

Lemma Llama_cleaned_steps (response : jsstring) :
  Llama.cleanedMessage response
  = firstLine (trim (replaceAll newlines (str " ") (stripped response))).
Proof.
  unfold Llama.cleanedMessage, stripped.
  now rewrite stripQuotes_spec, stripPeriod_spec.
Qed.

Lemma Ollama_cleaned_steps (response : jsstring) :
  Ollama.cleanedMessage response
  = firstLine
      (trim (replaceFirst logSuffix []
               (replaceFirst aiPrefix []
                  (replaceAll newlines (str " ") (stripped response))))).
Proof.
  unfold Ollama.cleanedMessage, stripped.
  now rewrite stripQuotes_spec, stripPeriod_spec.
Qed.

Lemma Llama_cleaned_line (response body : jsstring) :
  stripped response = body -> trim body = body -> ~ In LF body ->
  Llama.cleanedMessage response = body.
Proof.
  intros S T N. rewrite Llama_cleaned_steps, S, (newlines_id _ N), T.
  now apply firstLine_fixed.
Qed.

Lemma Ollama_cleaned_line (response body : jsstring) :
  stripped response = body -> trim body = body -> ~ In LF body ->
  test aiPrefix body = false -> test logSuffix body = false ->
  Ollama.cleanedMessage response = body.
Proof.
  intros S T N A G.
  rewrite Ollama_cleaned_steps, S, (newlines_id _ N).
  rewrite (replaceFirst_no_match _ _ _ A), (replaceFirst_no_match _ _ _ G), T.
  now apply firstLine_fixed.
Qed.

Lemma Llama_sanitize_iff (response c : jsstring) :
  Llama.sanitize response = Some c <->
  c = Llama.cleanedMessage response /\ 0 < length c /\ length c < 100.
Proof.
  destruct response as [|a r].
  - split; [discriminate|]. intros [-> [H _]]. vm_compute in H. lia.
  - apply acceptCleaned_spec.
Qed.

Lemma Ollama_sanitize_iff (response c : jsstring) :
  Ollama.sanitize response = Some c <->
  c = Ollama.cleanedMessage response /\ 0 < length c /\ length c < 100.
Proof.
  destruct response as [|a r].
  - split; [discriminate|]. intros [-> [H _]]. vm_compute in H. lia.
  - apply acceptCleaned_spec.
Qed.

Lemma sanitize_of_cleaned (response body : jsstring)
    (sanitize : jsstring -> option jsstring)
    (cleanedMessage : jsstring -> jsstring) :
  (forall c, sanitize response = Some c <->
             c = cleanedMessage response /\ 0 < length c /\ length c < 100) ->
  cleanedMessage response = body ->
  sanitize response
  = if (0 <? length body) && (length body <? 100) then Some body else None.
Proof.
  intros I E.
  assert (R : forall c, sanitize response = Some c -> 0 < length body < 100).
  { intros c S. apply I in S. rewrite E in S. destruct S as [-> S]. exact S. }
  destruct (Nat.ltb_spec 0 (length body)) as [A|A];
    destruct (Nat.ltb_spec (length body) 100) as [B|B]; cbn [andb].
  - apply I. rewrite E. repeat split; assumption.
  - destruct (sanitize response) as [c|] eqn:S; [|reflexivity].
    specialize (R c eq_refl). lia.
  - destruct (sanitize response) as [c|] eqn:S; [|reflexivity].
    specialize (R c eq_refl). lia.
  - destruct (sanitize response) as [c|] eqn:S; [|reflexivity].
    specialize (R c eq_refl). lia.
Qed.

(** C7.  Sanitising a remote response, in both generators.  The cleaned
    text is the response trimmed, without one quote at its front, one
    quote at its end and then one period at its end, with the later steps
    of the generator applied to what is left.  So a one-line text between
    quotes and followed, inside the quotes, by a period comes out as that
    text, whatever quotes or periods of its own it has, and a one-line
    text with no quote at either end and no period at the end comes out
    unchanged.  The generator returns the cleaned text exactly when its
    length is above 0 and below 100, and nothing otherwise. *)
Theorem sanitize_spec :
  (forall response,
      Llama.cleanedMessage response
      = firstLine (trim (replaceAll newlines (str " ") (stripped response))) /\
      Ollama.cleanedMessage response
      = firstLine
          (trim (replaceFirst logSuffix []
                   (replaceFirst aiPrefix []
                      (replaceAll newlines (str " ")
                                  (stripped response)))))) /\
  (forall q1 q2 body,
      isQuoteChar q1 = true -> isQuoteChar q2 = true ->
      trim body = body -> ~ In LF body ->
      let response := q1 :: body ++ str "." ++ [q2] in
      Llama.cleanedMessage response = body /\
      Llama.sanitize response
      = (if (0 <? length body) && (length body <? 100)
         then Some body else None) /\
      (test aiPrefix body = false -> test logSuffix body = false ->
       Ollama.cleanedMessage response = body /\
       Ollama.sanitize response
       = (if (0 <? length body) && (length body <? 100)
          then Some body else None))) /\
  (forall response,
      trim response = response -> ~ In LF response ->
      (forall c t, response = c :: t -> isQuoteChar c = false) ->
      (forall t c, response = t ++ [c] ->
                   isQuoteChar c = false /\ isDot c = false) ->
      Llama.cleanedMessage response = response /\
      (test aiPrefix response = false -> test logSuffix response = false ->
       Ollama.cleanedMessage response = response)) /\
  (forall response c,
      (Llama.sanitize response = Some c <->
       c = Llama.cleanedMessage response /\ 0 < length c /\ length c < 100) /\
      (Ollama.sanitize response = Some c <->
       c = Ollama.cleanedMessage response /\
       0 < length c /\ length c < 100)) /\
  (forall response,
      (Llama.sanitize response = None <->
       ~ (0 < length (Llama.cleanedMessage response) < 100)) /\
      (Ollama.sanitize response = None <->
       ~ (0 < length (Ollama.cleanedMessage response) < 100))).
Proof.
  split; [|split; [|split; [|split]]].
  - intros response. split.
    + apply Llama_cleaned_steps.
    + apply Ollama_cleaned_steps.
  - intros q1 q2 body Q1 Q2 T N response.
    pose proof (stripped_quoted q1 q2 body Q1 Q2) as S.
    fold response in S.
    assert (EL : Llama.cleanedMessage response = body)
      by now apply Llama_cleaned_line.
    split; [exact EL|]. split.
    + apply (sanitize_of_cleaned response body Llama.sanitize
               Llama.cleanedMessage);
        [intros c; apply Llama_sanitize_iff | exact EL].
    + intros A G.
      assert (EO : Ollama.cleanedMessage response = body)
        by now apply Ollama_cleaned_line.
      split; [exact EO|].
      apply (sanitize_of_cleaned response body Ollama.sanitize
               Ollama.cleanedMessage);
        [intros c; apply Ollama_sanitize_iff | exact EO].
  - intros response T N F L.
    pose proof (stripped_plain response T F L) as S. split.
    + now apply Llama_cleaned_line.
    + intros A G. now apply Ollama_cleaned_line.
  - intros response c. split.
    + apply Llama_sanitize_iff.
    + apply Ollama_sanitize_iff.
  - intros response. split; split.
    + intros E H.
      assert (S : Llama.sanitize response
                  = Some (Llama.cleanedMessage response))
        by (apply Llama_sanitize_iff; split; [reflexivity | exact H]).
      congruence.
    + intros H. destruct (Llama.sanitize response) as [c|] eqn:E;
        [|reflexivity].
      apply Llama_sanitize_iff in E. destruct E as [-> E].
      exfalso. apply H. exact E.
    + intros E H.
      assert (S : Ollama.sanitize response
                  = Some (Ollama.cleanedMessage response))
        by (apply Ollama_sanitize_iff; split; [reflexivity | exact H]).
      congruence.
    + intros H. destruct (Ollama.sanitize response) as [c|] eqn:E;
        [|reflexivity].
      apply Ollama_sanitize_iff in E. destruct E as [-> E].
      exfalso. apply H. exact E.
Qed.

Lemma sanitize_spec_witness :
  Llama.sanitize (DQUOTE :: str "Fix parser" ++ str "." ++ [DQUOTE])
  = Some (str "Fix parser") /\
  Ollama.sanitize (DQUOTE :: str "Fix parser" ++ str "." ++ [DQUOTE])
  = Some (str "Fix parser").
Proof.
  assert (N : ~ In LF (str "Fix parser")).
  { vm_compute.
    repeat (intros [H|H]; [discriminate H | revert H]). intros H; exact H. }
  pose proof (proj1 (proj2 sanitize_spec) DQUOTE DQUOTE (str "Fix parser")
                eq_refl eq_refl eq_refl N) as S.
  split.
  - exact (proj1 (proj2 S)).
  - exact (proj2 (proj2 (proj2 S) eq_refl eq_refl)).
Defined.

(** X12.  A message that either generator accepts is one trimmed line: it
    holds no line feed, trimming it again changes nothing (so it neither
    starts nor ends with white space), and its length is between 1 and
    99. *)
Theorem accepted_message_single_trimmed_line (response m : jsstring) :
  Llama.sanitize response = Some m \/ Ollama.sanitize response = Some m ->
  ~ In LF m /\ trim m = m /\ 1 <= length m <= 99.
Proof.
  intros [H|H].
  - apply Llama_sanitize_Some in H. destruct H as [-> [L1 L2]].
    destruct (Llama_cleaned_shape response) as [N T].
    repeat split; [exact N | exact T | lia | lia].
  - apply Ollama_sanitize_Some in H. destruct H as [-> [L1 L2]].
    destruct (Ollama_cleaned_shape response) as [N T].
    repeat split; [exact N | exact T | lia | lia].
Qed.

Lemma accepted_message_single_trimmed_line_witness :
  trim (str "Fix parser and lexer") = str "Fix parser and lexer".
Proof.
  apply (accepted_message_single_trimmed_line
           (str "  'Fix parser" ++ [LF; LF] ++ str "and lexer.' ")
           (str "Fix parser and lexer")).
  left. vm_compute. reflexivity.
Defined.

(** ** The message is never empty *)

Lemma subseq_In {A : Type} (l1 l2 : list A) (x : A) :
  subseq l1 l2 -> In x l1 -> In x l2.
Proof.
  induction 1 as [|y l1 l2 _ IH|y l1 l2 _ IH]; intros H.
  - exact H.
  - right. now apply IH.
  - destruct H as [->|H]; [now left | right; now apply IH].
Qed.

Lemma detected_in_catalogue (diff : jsstring) (p : pattern) :
  In p (detectPatterns diff) -> In p (map snd patternCatalogue).
Proof.
  unfold detectPatterns.
  destruct (detect_order (fun r => test r diff) patternCatalogue [])
    as [extra [E S]].
  rewrite E. cbn [app]. intros H. exact (subseq_In _ _ p S H).
Qed.

Lemma catalogue_actions_nonempty :
  Forall (fun p => action p <> []) (map snd patternCatalogue).
Proof.
  unfold patternCatalogue. simpl.
  repeat (constructor; [discriminate|]). constructor.
Qed.

Lemma generateCommitMessage_nonempty (cats : categories)
    (files : list jsstring) (diff : jsstring) (opts : options) :
  generateCommitMessage cats (analyzeCodeChanges files diff) opts <> [].
Proof.
  unfold generateCommitMessage.
  destruct (patterns (analyzeCodeChanges files diff)) as [|p ps] eqn:P.
  - pose proof (categoryMessage_verb cats (verbose opts)) as S.
    apply startsWith_inv in S. destruct S as [y ->]. discriminate.
  - cbv zeta.
    match goal with
    | |- (if ?c then _ else _) <> [] => destruct c
    end.
    + intros H. apply app_eq_nil in H. destruct H as [_ H].
      discriminate H.
    + rewrite andb_false_r.
      assert (I : In p (map snd patternCatalogue)).
      { apply (detected_in_catalogue diff).
        rewrite <- patterns_analyzeCodeChanges with (files := files), P.
        now left. }
      pose proof catalogue_actions_nonempty as F.
      rewrite Forall_forall in F. now apply F.
Qed.

(** X13.  Whatever is staged and whatever the diff holds, the rule-based
    message built from the analysis of that diff is not the empty text:
    it is the action of a catalogue entry, possibly followed by the
    evidence counts, or a list of category clauses, or [Update files]. *)
Theorem rule_based_message_never_empty (files : list jsstring)
    (diff : jsstring) (opts : options) :
  generateCommitMessage (categorizeFiles files)
                        (analyzeCodeChanges files diff) opts <> [] /\
  Basic.generateCommitMessage (categorizeFiles files) opts <> [].
Proof.
  split; [apply generateCommitMessage_nonempty|].
  unfold Basic.generateCommitMessage.
  pose proof (categoryMessage_verb (categorizeFiles files) (verbose opts)) as S.
  apply startsWith_inv in S. destruct S as [y ->]. discriminate.
Qed.






(** ** Evidence and the number of qualifying files *)

Lemma pushFunction_cases (acc : list jsstring) (m : jsstring) :
  pushFunction acc m = acc \/
  exists name, pushFunction acc m = acc ++ [name] /\
               forall acc', In name acc' -> pushFunction acc' m = acc'.
Proof.
  unfold pushFunction.
  destruct (search funcNamePattern true m) as [r|]; [|now left].
  destruct (group 1 (groups r)) as [name|]; [|now left].
  destruct (arrIncludes acc name) eqn:I; [now left|].
  right. exists name. split; [reflexivity|].
  intros acc' H. apply arrIncludes_In in H. now rewrite H.
Qed.

Lemma pushFunction_absorbed_mono (acc acc' : list jsstring) (m : jsstring) :
  incl acc acc' -> pushFunction acc m = acc -> pushFunction acc' m = acc'.
Proof.
  intros S. unfold pushFunction.
  destruct (search funcNamePattern true m) as [r|]; [|reflexivity].
  destruct (group 1 (groups r)) as [name|]; [|reflexivity].
  destruct (arrIncludes acc name) eqn:I.
  - intros _. apply arrIncludes_In in I. apply S in I.
    apply arrIncludes_In in I. now rewrite I.
  - intros H. apply (f_equal (@length jsstring)) in H.
    rewrite length_app in H. simpl in H. lia.
Qed.

Lemma pushFunction_incl (acc : list jsstring) (m : jsstring) :
  incl acc (pushFunction acc m).
Proof.
  destruct (pushFunction_cases acc m) as [E|[name [E _]]]; rewrite E.
  - apply incl_refl.
  - apply incl_appl, incl_refl.
Qed.

Lemma fold_pushFunction_incl (ms : list jsstring) :
  forall acc, incl acc (fold_left pushFunction ms acc).
Proof.
  induction ms as [|m ms IH]; intros acc; simpl; [apply incl_refl|].
  eapply incl_tran; [apply pushFunction_incl | apply IH].
Qed.

Lemma pushFunction_absorbs (acc : list jsstring) (m : jsstring) :
  pushFunction (pushFunction acc m) m = pushFunction acc m.
Proof.
  destruct (pushFunction_cases acc m) as [E|[name [E A]]].
  - now rewrite !E.
  - rewrite E. apply A. apply in_or_app. right. now left.
Qed.

Lemma fold_pushFunction_absorbs (ms : list jsstring) :
  forall acc m, In m ms ->
    pushFunction (fold_left pushFunction ms acc) m
    = fold_left pushFunction ms acc.
Proof.
  induction ms as [|m0 ms IH]; intros acc m H; [destruct H|].
  simpl. destruct H as [->|H]; [|now apply IH].
  apply (pushFunction_absorbed_mono (pushFunction acc m)).
  - apply fold_pushFunction_incl.
  - apply pushFunction_absorbs.
Qed.

Lemma fold_pushFunction_fixed (ms : list jsstring) :
  forall acc, (forall m, In m ms -> pushFunction acc m = acc) ->
              fold_left pushFunction ms acc = acc.
Proof.
  induction ms as [|m ms IH]; intros acc H; [reflexivity|].
  simpl. rewrite (H m) by now left.
  apply IH. intros m' I. apply H. now right.
Qed.

Lemma fold_pushFunction_idem (ms acc : list jsstring) :
  fold_left pushFunction ms (fold_left pushFunction ms acc)
  = fold_left pushFunction ms acc.
Proof.
  apply fold_pushFunction_fixed. intros m H.
  now apply fold_pushFunction_absorbs.
Qed.

Lemma analyzeFile_functions (diff : jsstring) (a : CodeAnalysis.t)
    (file : jsstring) :
  functions (analyzeFile diff a file) =
  if qualifiesFunctions file
  then fold_left pushFunction (matchAll functionPattern diff) (functions a)
  else functions a.
Proof. reflexivity. Qed.

Lemma fold_analyzeFile_functions (diff : jsstring) (files : list jsstring) :
  forall a,
    functions a = [] \/
    functions a = fold_left pushFunction (matchAll functionPattern diff) [] ->
    functions (fold_left (analyzeFile diff) files a) =
    if existsb qualifiesFunctions files
    then fold_left pushFunction (matchAll functionPattern diff) []
    else functions a.
Proof.
  induction files as [|f files IH]; intros a H; [reflexivity|].
  simpl. destruct (qualifiesFunctions f) eqn:Q; simpl.
  - rewrite IH.
    + rewrite analyzeFile_functions, Q.
      destruct H as [->| ->]; [|rewrite fold_pushFunction_idem];
        now destruct (existsb qualifiesFunctions files).
    + right. rewrite analyzeFile_functions, Q.
      destruct H as [->| ->]; [reflexivity | apply fold_pushFunction_idem].
  - rewrite IH; rewrite analyzeFile_functions, Q; [reflexivity | exact H].
Qed.

(** X16.  The function names do not depend on how many staged files
    qualify: with at least one file of a scanned extension they are the
    names found in one scan of the diff, each once, and without such a
    file there are none, whatever the diff holds. *)
Theorem functions_independent_of_file_count (files : list jsstring)
    (diff : jsstring) :
  functions (analyzeCodeChanges files diff) =
  (if existsb qualifiesFunctions files
   then fold_left pushFunction (matchAll functionPattern diff) []
   else []) /\
  (forall f, qualifiesFunctions f = true ->
             In f files ->
             functions (analyzeCodeChanges files diff)
             = functions (analyzeCodeChanges [f] diff)).
Proof.
  assert (E : forall l, functions (analyzeCodeChanges l diff) =
                if existsb qualifiesFunctions l
                then fold_left pushFunction (matchAll functionPattern diff) []
                else []).
  { intros l. unfold analyzeCodeChanges. cbn [functions].
    rewrite fold_analyzeFile_functions by now left.
    now destruct (existsb qualifiesFunctions l). }
  split; [apply E|].
  intros f Q I. rewrite !E. simpl. rewrite Q. simpl.
  assert (X : existsb qualifiesFunctions files = true).
  { apply existsb_exists. now exists f. }
  now rewrite X.
Qed.

Lemma functions_independent_of_file_count_witness :
  functions (analyzeCodeChanges (map str ["a.css"; "b.js"; "c.ts"])
               (str "+function run() {"))
  = functions (analyzeCodeChanges [str "b.js"] (str "+function run() {")).
Proof.
  apply (proj2 (functions_independent_of_file_count
                  (map str ["a.css"; "b.js"; "c.ts"])
                  (str "+function run() {")) (str "b.js")).
  - reflexivity.
  - simpl. auto.
Defined.

Section PerFileEvidence.
Variable diff : jsstring.
Variable proj : CodeAnalysis.t -> list jsstring.
Variable qualifies : jsstring -> bool.
Variable found : list jsstring.
Hypothesis step :
  forall a file,
    proj (analyzeFile diff a file) =
    if qualifies file then proj a ++ found else proj a.

Lemma fold_analyzeFile_appends (files : list jsstring) :
  forall a,
    proj (fold_left (analyzeFile diff) files a) =
    proj a ++ flat_map (fun f => if qualifies f then found else []) files.
Proof.
  induction files as [|f files IH]; intros a; simpl.
  - now rewrite app_nil_r.
  - rewrite IH, step. destruct (qualifies f).
    + now rewrite <- app_assoc.
    + reflexivity.
Qed.

Lemma flat_map_qualifying_length (files : list jsstring) :
  length (flat_map (fun f => if qualifies f then found else []) files)
  = length (filter qualifies files) * length found.
Proof.
  induction files as [|f files IH]; simpl; [reflexivity|].
  rewrite length_app, IH. destruct (qualifies f); simpl; lia.
Qed.
End PerFileEvidence.

Lemma fold_push_added (ms : list jsstring) :
  forall acc,
    fold_left (fun acc m => if startsWith m (str "+")
                            then acc ++ [cutPlus m] else acc) ms acc
    = acc ++ map cutPlus (filter (fun m => startsWith m (str "+")) ms).
Proof.
  induction ms as [|m ms IH]; intros acc; cbn [fold_left filter].
  - cbn [map]. now rewrite app_nil_r.
  - rewrite IH. destruct (startsWith m (str "+")); cbn [map].
    + rewrite <- app_assoc. reflexivity.
    + reflexivity.
Qed.

(** X17.  Imports, test lines, configuration keys and type declarations
    are recorded once for every staged file that qualifies for the kind:
    the number of entries is the number of qualifying files times the
    number of lines one scan of the diff finds. *)
Theorem evidence_counted_per_qualifying_file (files : list jsstring)
    (diff : jsstring) :
  let a := analyzeCodeChanges files diff in
  length (types a)
  = length (filter qualifiesTypes files)
    * length (matchAll typePattern diff) /\
  length (CodeAnalysis.tests a)
  = length (filter qualifiesTests files)
    * length (matchAll testPattern diff) /\
  length (configs a)
  = length (filter qualifiesConfigs files)
    * length (matchAll configPattern diff) /\
  length (imports a)
  = length (filter qualifiesImports files)
    * length (filter (fun m => startsWith m (str "+"))
                     (matchAll importPattern diff)).
Proof.
  unfold analyzeCodeChanges.
  cbn [types CodeAnalysis.tests configs imports].
  repeat split.
  - rewrite (fold_analyzeFile_appends diff types qualifiesTypes
               (map cutPlus (matchAll typePattern diff)))
      by reflexivity.
    simpl. rewrite flat_map_qualifying_length. now rewrite length_map.
  - rewrite (fold_analyzeFile_appends diff CodeAnalysis.tests qualifiesTests
               (map cutPlus (matchAll testPattern diff)))
      by reflexivity.
    simpl. rewrite flat_map_qualifying_length. now rewrite length_map.
  - rewrite (fold_analyzeFile_appends diff configs qualifiesConfigs
               (map (fun m => substring0 50 (cutPlus m))
                    (matchAll configPattern diff)))
      by reflexivity.
    simpl. rewrite flat_map_qualifying_length. now rewrite length_map.
  - rewrite (fold_analyzeFile_appends diff imports qualifiesImports
               (map cutPlus (filter (fun m => startsWith m (str "+"))
                                    (matchAll importPattern diff)))).
    + simpl. rewrite flat_map_qualifying_length. now rewrite length_map.
    + intros a file. unfold analyzeFile. cbn [imports].
      fold (qualifiesImports file).
      destruct (qualifiesImports file); [|reflexivity].
      apply fold_push_added.
Qed.

(** ** The size of the pattern list *)

Lemma catalogue_kinds_listed :
  Forall (fun p => In (ptype p) catalogueKinds) (map snd patternCatalogue).
Proof.
  unfold patternCatalogue, catalogueKinds. simpl.
  repeat (constructor; [simpl; auto 20|]). constructor.
Qed.

(** X18.  The pattern list depends on the diff only, not on the staged
    files, and never holds more than fourteen entries: one for each kind
    of the catalogue at most. *)
Theorem patterns_bounded (files : list jsstring) (diff : jsstring) :
  patterns (analyzeCodeChanges files diff)
  = patterns (analyzeCodeChanges [] diff) /\
  length (patterns (analyzeCodeChanges files diff)) <= 14.
Proof.
  rewrite !patterns_analyzeCodeChanges. split; [reflexivity|].
  rewrite <- (length_map ptype).
  change 14 with (length catalogueKinds).
  apply NoDup_incl_length.
  - apply detect_NoDup. constructor.
  - intros ty H. apply in_map_iff in H. destruct H as [p [<- I]].
    apply detected_in_catalogue in I.
    pose proof catalogue_kinds_listed as F.
    rewrite Forall_forall in F. now apply F.
Qed.

(** ** Letter case *)

Lemma lowerChar_idem (c : ascii) : lowerChar (lowerChar c) = lowerChar c.
Proof. destruct c as [[] [] [] [] [] [] [] []]; reflexivity. Qed.

Lemma isDot_lower (c : ascii) : isDot (lowerChar c) = isDot c.
Proof. destruct c as [[] [] [] [] [] [] [] []]; reflexivity. Qed.

Lemma isSlash_lower (c : ascii) : isSlash (lowerChar c) = isSlash c.
Proof. destruct c as [[] [] [] [] [] [] [] []]; reflexivity. Qed.

Lemma takeWhile_map (p : ascii -> bool) (g : ascii -> ascii) (s : jsstring) :
  (forall c, p (g c) = p c) ->
  takeWhile p (map g s) = map g (takeWhile p s).
Proof.
  intros H. induction s as [|c s IH]; simpl; [reflexivity|].
  rewrite H. destruct (p c); simpl; [now rewrite IH | reflexivity].
Qed.

Lemma dropWhile_map (p : ascii -> bool) (g : ascii -> ascii) (s : jsstring) :
  (forall c, p (g c) = p c) ->
  dropWhile p (map g s) = map g (dropWhile p s).
Proof.
  intros H. induction s as [|c s IH]; simpl; [reflexivity|].
  rewrite H. destruct (p c); [exact IH | reflexivity].
Qed.

Lemma basename_lower (p : jsstring) :
  basename (toLowerCase p) = toLowerCase (basename p).
Proof.
  unfold basename, toLowerCase.
  rewrite <- map_rev, dropWhile_map by apply isSlash_lower.
  rewrite takeWhile_map
    by (intros c; simpl; now rewrite isSlash_lower).
  now rewrite map_rev.
Qed.

Lemma jseq_dotdot_lower (b : jsstring) :
  jseq (map lowerChar b) (str "..") = jseq b (str "..").
Proof.
  assert (L : forall c, Ascii.eqb (lowerChar c) "."%char
                        = Ascii.eqb c "."%char)
    by (intros c; apply (isDot_lower c)).
  destruct b as [|x [|y [|z b]]]; simpl; rewrite ?L; reflexivity.
Qed.

Lemma extname_lower (p : jsstring) :
  extname (toLowerCase p) = toLowerCase (extname p).
Proof.
  unfold extname. rewrite basename_lower. unfold toLowerCase.
  set (b := basename p).
  rewrite <- map_rev.
  rewrite takeWhile_map by (intros c; simpl; now rewrite isDot_lower).
  rewrite length_map, skipn_map, jseq_dotdot_lower.
  destruct (skipn _ (rev b)) as [|d [|e before]]; try reflexivity.
  cbn [map]. destruct (jseq b (str "..")); [reflexivity|].
  cbn [map]. now rewrite map_rev.
Qed.

Lemma toLowerCase_idem (s : jsstring) :
  toLowerCase (toLowerCase s) = toLowerCase s.
Proof.
  unfold toLowerCase. rewrite map_map. apply map_ext.
  intros c. apply lowerChar_idem.
Qed.

(** X19.  Categorisation ignores letter case: a path and its lower-cased
    form take the same branch, so two paths that differ in case only land
    in the same bucket. *)
Theorem classify_ignores_case (file : jsstring) :
  classify (toLowerCase file) = classify file /\
  (forall other, toLowerCase other = toLowerCase file ->
                 classify other = classify file).
Proof.
  assert (E : forall f, classify (toLowerCase f) = classify f).
  { intros f. unfold classify.
    now rewrite extname_lower, basename_lower, !toLowerCase_idem. }
  split; [apply E|].
  intros other H. now rewrite <- (E other), H, E.
Qed.

Lemma classify_ignores_case_witness :
  classify (str "Docs/README.TXT") = classify (str "docs/readme.txt").
Proof.
  apply (proj2 (classify_ignores_case (str "docs/readme.txt"))).
  reflexivity.
Defined.

(** ** The action phrase with counts *)

(** X20.  When a pattern matched and at least one evidence count is
    shown, the message is the action phrase, then [ with ], then the
    counts, and it never opens with [Add ]: that prefix of the catalogue
    phrases is dropped before the counts are appended. *)
Theorem add_prefix_dropped_with_counts (cats : categories)
    (files : list jsstring) (diff : jsstring) (opts : options) :
  let a := analyzeCodeChanges files diff in
  patterns a <> [] ->
  imports a <> [] \/ types a <> [] \/
  (code cats <> [] /\ functions a <> []) \/
  (tests cats <> [] /\ CodeAnalysis.tests a <> []) ->
  startsWith (generateCommitMessage cats a opts) (str "Add ") = false /\
  includes (generateCommitMessage cats a opts) (str " with ") = true.
Proof.
  intros a NP EV.
  destruct (patterns a) as [|p ps] eqn:P; [contradiction|].
  assert (I : In p (map snd patternCatalogue)).
  { apply (detected_in_catalogue diff).
    rewrite <- patterns_analyzeCodeChanges with (files := files).
    fold a. rewrite P. now left. }
  unfold generateCommitMessage. rewrite P. cbv zeta.
  match goal with
  | |- context [join (str ", ") ?x] => set (parts := x)
  end.
  assert (L : (0 <? length parts) = true).
  { subst parts.
    repeat match goal with
           | |- context [if ?c then _ else _] => destruct c eqn:?
           end;
      try (apply Nat.ltb_lt; rewrite ?length_app; simpl; lia).
    exfalso.
    destruct EV as [E|[E|[[E1 E2]|[E1 E2]]]].
    - destruct (imports a); [contradiction | discriminate].
    - destruct (types a); [contradiction | discriminate].
    - destruct (code cats); [contradiction|].
      destruct (functions a); [contradiction | discriminate].
    - destruct (tests cats); [contradiction|].
      destruct (CodeAnalysis.tests a); [contradiction | discriminate]. }
  rewrite L, andb_true_r. split.
  - clear - I. unfold patternCatalogue in I. simpl in I.
    repeat (destruct I as [<-|I]; [reflexivity|]). destruct I.
  - apply includes_spec. eexists _, _. reflexivity.
Qed.

Lemma add_prefix_dropped_with_counts_witness :
  includes
    (generateCommitMessage (categorizeFiles [str "src/api.js"])
       (analyzeCodeChanges [str "src/api.js"]
          (str "+async function fetchData() {}"))
       (mkOptions false false))
    (str " with ") = true.
Proof.
  refine (proj2 (add_prefix_dropped_with_counts
                   (categorizeFiles [str "src/api.js"]) [str "src/api.js"]
                   (str "+async function fetchData() {}")
                   (mkOptions false false) _ _)).
  - vm_compute. discriminate.
  - right. right. left. split; vm_compute; discriminate.
Defined.

Lemma hasStagedChanges_iff_witness :
  hasStagedChanges (Some (str " 1 file changed, 2 insertions(+)")) = true.
Proof.
  apply (proj2 hasStagedChanges_iff). exists (ch "1"). split.
  - simpl. auto.
  - reflexivity.
Defined.
